(** * ChainerX native device: element-wise arithmetic kernels

    A shallow embedding of
    [chainerx/native/native_device/arithmetic.cc]: the [FloorDivide]
    overloads, the element-wise kernels built around them and around
    [ArithmeticOps], and the dtype dispatch that guards each kernel. *)

From Stdlib Require Import ZArith Lia List Bool.
From Stdlib Require Import Reals Lra Zfloor.
From Stdlib Require Import Floats.SpecFloat.
Import ListNotations.

Local Open Scope Z_scope.

(** ** Outcomes of a call

    A call either returns, or it stops in one of the ways the C++ code can
    stop: a failed device check, a dtype outside the visitor's switch
    ([CHAINERX_NEVER_REACH]), operands of different length or dtype handed
    to [Elementwise], or an operation whose behaviour C++ leaves
    undefined. *)

Inductive fault : Type :=
| DeviceMismatch
| DtypeNotVisited
| ShapeMismatch
| DtypeMismatch
| UndefinedBehavior.

Inductive outcome (A : Type) : Type :=
| Ok (a : A)
| Fail (e : fault).

Arguments Ok {A} a.
Arguments Fail {A} e.

Definition bind {A B : Type} (m : outcome A) (k : A -> outcome B) : outcome B :=
  match m with
  | Ok a => k a
  | Fail e => Fail e
  end.

Notation "x <- m ;; k" := (bind m (fun x => k))
  (at level 61, m at next level, right associativity).
Notation "m ;;; k" := (bind m (fun _ => k))
  (at level 61, right associativity).

Fixpoint mapM {A B : Type} (f : A -> outcome B) (l : list A) : outcome (list B) :=
  match l with
  | [] => Ok []
  | a :: l' => b <- f a ;; bs <- mapM f l' ;; Ok (b :: bs)
  end.

(** ** Fixed-width integers

    A [w]-bit integer is a [Z]; conversions wrap modulo [2^w], signed
    arithmetic that leaves the range is undefined. *)

Module Int.

Definition min_value (w : Z) : Z := - 2 ^ (w - 1).
Definition max_value (w : Z) : Z := 2 ^ (w - 1) - 1.

Definition in_range (w z : Z) : Prop := min_value w <= z <= max_value w.
Definition in_rangeb (w z : Z) : bool := (min_value w <=? z) && (z <=? max_value w).

Definition in_urange (w z : Z) : Prop := 0 <= z < 2 ^ w.

(** [static_cast] to a signed, respectively unsigned, [w]-bit type: the
    value modulo [2^w] (value-preserving when the value fits). *)
Definition wrap (w z : Z) : Z := (z + 2 ^ (w - 1)) mod 2 ^ w - 2 ^ (w - 1).
Definition uwrap (w z : Z) : Z := z mod 2 ^ w.

(** Signed arithmetic in a [w]-bit type: the exact result when it is
    representable. *)
Definition checked (w z : Z) : outcome Z :=
  if in_rangeb w z then Ok z else Fail UndefinedBehavior.

Definition neg (w x : Z) : outcome Z := checked w (- x).
Definition sub (w x y : Z) : outcome Z := checked w (x - y).

Record div_t : Type := { quot : Z; rem : Z }.

(** [std::div]: truncating quotient and remainder; undefined when the
    divisor is zero or the quotient is not representable. *)
Definition std_div (w x y : Z) : outcome div_t :=
  if (y =? 0) || ((x =? min_value w) && (y =? -1))
  then Fail UndefinedBehavior
  else Ok {| quot := Z.quot x y; rem := Z.rem x y |}.

End Int.

(** ** The integer overloads of [FloorDivide] *)

(** The body the [int32_t] and [int64_t] overloads share, at width [w]. *)
Definition FloorDivide_int (w : Z) (x y : Z) : outcome Z :=
  if y =? 0 then Ok 0
  else
    div <- Int.std_div w x y ;;
    r <- (if y >=? 0 then Ok (Int.rem div) else Int.neg w (Int.rem div)) ;;
    Int.sub w (Int.quot div) (if r <? 0 then 1 else 0).

Definition FloorDivide_int32 (x y : Z) : outcome Z := FloorDivide_int 32 x y.
Definition FloorDivide_int64 (x y : Z) : outcome Z := FloorDivide_int 64 x y.

(** The [int8_t] and [int16_t] overloads: widen, apply the [int32_t]
    overload, narrow. *)
Definition FloorDivide_int8 (x y : Z) : outcome Z :=
  r <- FloorDivide_int32 (Int.wrap 32 x) (Int.wrap 32 y) ;;
  Ok (Int.wrap 8 r).

Definition FloorDivide_int16 (x y : Z) : outcome Z :=
  r <- FloorDivide_int32 (Int.wrap 32 x) (Int.wrap 32 y) ;;
  Ok (Int.wrap 16 r).

(** The [uint8_t] overload; [x / y] is computed in [int] and converted. *)
Definition FloorDivide_uint8 (x y : Z) : outcome Z :=
  if y =? 0 then Ok 0
  else Ok (Int.uwrap 8 (Z.quot x y)).

(** ** Binary floating point

    [float], [double] and the storage format of [chainerx::Float16] are
    the IEEE 754 binary32, binary64 and binary16 formats, values are
    [spec_float]s and arithmetic rounds to nearest, ties to even. *)

Module Float.

Record format : Type := { prec : Z; emax : Z }.

Definition binary16 : format := {| prec := 11; emax := 16 |}.
Definition binary32 : format := {| prec := 24; emax := 128 |}.
Definition binary64 : format := {| prec := 53; emax := 1024 |}.

Definition valid (fmt : format) (x : spec_float) : bool :=
  valid_binary (prec fmt) (emax fmt) x.

Definition zero : spec_float := S754_zero false.
Definition nan : spec_float := S754_nan.

(** The value [m * 2^e] rounded into [fmt]; a zero mantissa gives [+0]. *)
Definition of_Z_exp (fmt : format) (m e : Z) : spec_float :=
  binary_normalize (prec fmt) (emax fmt) m e false.

(** Conversion of an integer to [fmt]. *)
Definition of_int (fmt : format) (z : Z) : spec_float := of_Z_exp fmt z 0.

(** Conversion of a floating value to [fmt] ([static_cast] between
    floating types). *)
Definition convert (fmt : format) (x : spec_float) : spec_float :=
  match x with
  | S754_finite s m e => binary_round (prec fmt) (emax fmt) s m e
  | _ => x
  end.

Definition add (fmt : format) : spec_float -> spec_float -> spec_float :=
  SFadd (prec fmt) (emax fmt).
Definition sub (fmt : format) : spec_float -> spec_float -> spec_float :=
  SFsub (prec fmt) (emax fmt).
Definition mul (fmt : format) : spec_float -> spec_float -> spec_float :=
  SFmul (prec fmt) (emax fmt).
Definition div (fmt : format) : spec_float -> spec_float -> spec_float :=
  SFdiv (prec fmt) (emax fmt).

Definition ltb : spec_float -> spec_float -> bool := SFltb.

(** [std::fmod] (ISO C 7.12.10.1, F.10.7.1): the exact value
    [x - n * y] with [n] the quotient truncated toward zero, so the result
    has the sign of [x] and a magnitude below that of [y]; NaN when [x] is
    infinite or [y] is zero; [x] when [y] is infinite. *)
Definition fmod (fmt : format) (x y : spec_float) : spec_float :=
  match x, y with
  | S754_nan, _ | _, S754_nan => S754_nan
  | S754_infinity _, _ => S754_nan
  | _, S754_zero _ => S754_nan
  | S754_zero _, _ => x
  | S754_finite _ _ _, S754_infinity _ => x
  | S754_finite sx mx ex, S754_finite _ my ey =>
      let e := Z.min ex ey in
      let r := Z.rem (Z.pos mx * 2 ^ (ex - e)) (Z.pos my * 2 ^ (ey - e)) in
      binary_normalize (prec fmt) (emax fmt) (cond_Zopp sx r) e sx
  end.

(** [f2] extends [f1]: at least the precision, and at least the exponent
    range at both ends. *)
Definition extends (f1 f2 : format) : Prop :=
  prec f1 <= prec f2 /\
  3 - emax f2 - prec f2 <= 3 - emax f1 - prec f1 /\
  emax f1 - prec f1 <= emax f2 - prec f2.

End Float.

(** ** The floating overloads of [FloorDivide] *)

(** The body the [float] and [double] overloads share, in format [fmt];
    the integer literals are converted to [fmt]. *)
Definition FloorDivide_fp (fmt : Float.format) (x y : spec_float) : spec_float :=
  let rem := Float.fmod fmt x y in
  Float.sub fmt
    (Float.div fmt (Float.sub fmt x rem) y)
    (Float.of_int fmt
       (if (Float.ltb rem (Float.of_int fmt 0) && Float.ltb (Float.of_int fmt 0) y)
           || (Float.ltb (Float.of_int fmt 0) rem && Float.ltb y (Float.of_int fmt 0))
        then 1 else 0)).

Definition FloorDivide_float (x y : spec_float) : spec_float :=
  FloorDivide_fp Float.binary32 x y.
Definition FloorDivide_double (x y : spec_float) : spec_float :=
  FloorDivide_fp Float.binary64 x y.

(** The [chainerx::Float16] overload: through [float]. *)
Definition FloorDivide_Float16 (x y : spec_float) : spec_float :=
  Float.convert Float.binary16
    (FloorDivide_float (Float.convert Float.binary32 x) (Float.convert Float.binary32 y)).

(** ** Element types *)

(** Modelled from the spec: [chainerx/dtype.h] is not part of the sources
    at hand.  The catalog is the spec's [ElementType] (section 3) together
    with the boolean type, which is what separates the full visitor from
    the numeric one. *)
Inductive Dtype : Type :=
| kBool
| kInt8
| kInt16
| kInt32
| kInt64
| kUInt8
| kFloat16
| kFloat32
| kFloat64.

Definition Dtype_eq_dec (a b : Dtype) : {a = b} + {a <> b}.
Proof. decide equality. Defined.

Definition is_numeric (T : Dtype) : bool :=
  match T with kBool => false | _ => true end.

Definition is_floating (T : Dtype) : bool :=
  match T with kFloat16 | kFloat32 | kFloat64 => true | _ => false end.

Definition is_int (T : Dtype) : bool :=
  match T with kInt8 | kInt16 | kInt32 | kInt64 | kUInt8 => true | _ => false end.

(** The C++ type bound to [T] inside a visitor's callback. *)
Definition val (T : Dtype) : Type :=
  match T with
  | kBool => bool
  | kInt8 | kInt16 | kInt32 | kInt64 | kUInt8 => Z
  | kFloat16 | kFloat32 | kFloat64 => spec_float
  end.

(** The values a variable of type [T] can hold. *)
Definition representable (T : Dtype) : val T -> Prop :=
  match T with
  | kBool => fun _ => True
  | kInt8 => Int.in_range 8
  | kInt16 => Int.in_range 16
  | kInt32 => Int.in_range 32
  | kInt64 => Int.in_range 64
  | kUInt8 => Int.in_urange 8
  | kFloat16 => fun x => Float.valid Float.binary16 x = true
  | kFloat32 => fun x => Float.valid Float.binary32 x = true
  | kFloat64 => fun x => Float.valid Float.binary64 x = true
  end.

(** *** Conversions between element types ([static_cast]) *)

(** A value of some element type, by kind. *)
Inductive Value : Type :=
| VBool (b : bool)
| VInt (i : Z)
| VFloat (f : spec_float).

(** A value of type [T], seen by its kind. *)
Definition inject (T : Dtype) : val T -> Value :=
  match T with
  | kBool => VBool
  | kInt8 | kInt16 | kInt32 | kInt64 | kUInt8 => VInt
  | kFloat16 | kFloat32 | kFloat64 => VFloat
  end.

(** The integer part of a floating value; none for NaN and infinities. *)
Definition truncate (f : spec_float) : option Z :=
  match f with
  | S754_zero _ => Some 0
  | S754_finite s m e =>
      Some (cond_Zopp s (if 0 <=? e then Z.pos m * 2 ^ e else Z.pos m / 2 ^ (- e)))
  | _ => None
  end.

(** To [bool]: whether the value differs from zero. *)
Definition to_bool (v : Value) : bool :=
  match v with
  | VBool b => b
  | VInt i => negb (i =? 0)
  | VFloat f => negb (SFeqb f Float.zero)
  end.

(** To an integer type: integers wrap, a floating value is truncated and
    must then be representable. *)
Definition to_int (wrap : Z -> Z) (fits : Z -> bool) (v : Value) : outcome Z :=
  match v with
  | VBool b => Ok (if b then 1 else 0)
  | VInt i => Ok (wrap i)
  | VFloat f =>
      match truncate f with
      | Some i => if fits i then Ok i else Fail UndefinedBehavior
      | None => Fail UndefinedBehavior
      end
  end.

(** To a floating type: the value rounded into the format. *)
Definition to_float (fmt : Float.format) (v : Value) : spec_float :=
  match v with
  | VBool b => Float.of_int fmt (if b then 1 else 0)
  | VInt i => Float.of_int fmt i
  | VFloat f => Float.convert fmt f
  end.

(** [static_cast<T>(v)] *)
Definition static_cast (T : Dtype) : Value -> outcome (val T) :=
  match T with
  | kBool => fun v => Ok (to_bool v)
  | kInt8 => to_int (Int.wrap 8) (Int.in_rangeb 8)
  | kInt16 => to_int (Int.wrap 16) (Int.in_rangeb 16)
  | kInt32 => to_int (Int.wrap 32) (Int.in_rangeb 32)
  | kInt64 => to_int (Int.wrap 64) (Int.in_rangeb 64)
  | kUInt8 => to_int (Int.uwrap 8) (fun i => (0 <=? i) && (i <? 2 ^ 8))
  | kFloat16 => fun v => Ok (to_float Float.binary16 v)
  | kFloat32 => fun v => Ok (to_float Float.binary32 v)
  | kFloat64 => fun v => Ok (to_float Float.binary64 v)
  end.

(** ** Scalars *)

(** Modelled from the spec: [chainerx/scalar.h] is not part of the sources
    at hand.  A scalar is a single value with a nominal numeric type,
    convertible on demand to any element type by [static_cast] (spec,
    sections 3 and 4.5): it holds a [bool], an [int64_t] or a [double]. *)
Definition Scalar : Type := Value.

(** Modelled from the spec: [Scalar{v}] for [v] of type [T]; the value is
    kept, in the carrier of its kind. *)
Definition Scalar_of (T : Dtype) (v : val T) : Scalar :=
  match inject T v with
  | VBool b => VBool b
  | VInt i => VInt (Int.wrap 64 i)
  | VFloat f => VFloat (Float.convert Float.binary64 f)
  end.

(** ** Arrays *)

(** Modelled from the spec: [chainerx/device.h] is not part of the sources
    at hand.  A device is an execution context with an identity. *)
Definition Device : Type := nat.

(** Modelled from the spec: [chainerx/array.h] is not part of the sources
    at hand.  An array lives on a device, has a dtype and holds its
    elements in logical order (spec, sections 3 and 6). *)
Record Array : Type := mkArray {
  device : Device;
  dtype : Dtype;
  elems : list (val dtype)
}.

(** Modelled from the spec: the check fails unless every array resides on
    this device (spec, section 4.5). *)
Definition CheckDevicesCompatible (dev : Device) (arrays : list Array) : outcome unit :=
  if forallb (fun a => Nat.eqb (device a) dev) arrays
  then Ok tt
  else Fail DeviceMismatch.

(** Modelled from the spec: [AsType] gives a copy of the array with every
    element converted to [T] (spec, section 4.5). *)
Definition AsType (a : Array) (T : Dtype) : outcome Array :=
  es <- mapM (fun v => static_cast T (inject (dtype a) v)) (elems a) ;;
  Ok (mkArray (device a) T es).

(** [x.dtype() == out.dtype() ? x : x.AsType(out.dtype())] *)
Definition cast_to_dtype_of (out x : Array) : outcome Array :=
  if Dtype_eq_dec (dtype x) (dtype out) then Ok x else AsType x (dtype out).

(** The elements of [a] read at type [T], as [Elementwise] reads them. *)
Definition typed_elems (T : Dtype) (a : Array) : outcome (list (val T)) :=
  match Dtype_eq_dec (dtype a) T with
  | left e => Ok (eq_rect (dtype a) (fun d => list (val d)) (elems a) T e)
  | right _ => Fail DtypeMismatch
  end.

(** ** Dispatch on the dtype *)

(** The visitors of [chainerx/dtype.h], which is not part of the sources at
    hand, are modelled from the spec (sections 3 and 4.1): each one selects
    the static type of a runtime dtype and runs the callback at it, and
    fails when the dtype is outside its subset. *)
Definition visitor : Type :=
  forall A : Type, Dtype -> (Dtype -> outcome A) -> outcome A.

(** Modelled from the spec: the full visitor, over all types. *)
Definition VisitDtype : visitor :=
  fun A dtype f => f dtype.

(** Modelled from the spec: the visitor over the numeric types. *)
Definition VisitNumericDtype : visitor :=
  fun A dtype f =>
    match dtype with
    | kBool => Fail DtypeNotVisited
    | _ => f dtype
    end.

(** Modelled from the spec: the visitor over the integral types.  Whether
    these include the boolean type is left open by the spec and is a
    parameter here. *)
Definition VisitIntegralDtype (bool_is_integral : bool) : visitor :=
  fun A dtype f =>
    match dtype with
    | kInt8 | kInt16 | kInt32 | kInt64 | kUInt8 => f dtype
    | kBool => if bool_is_integral then f dtype else Fail DtypeNotVisited
    | kFloat16 | kFloat32 | kFloat64 => Fail DtypeNotVisited
    end.

(** ** Per-element transforms *)

Definition binop : Type := forall T : Dtype, val T -> val T -> outcome (val T).

(** [ArithmeticOps<T>] of [chainerx/arithmetic_ops.h], which is not part of
    the sources at hand: the kernels are defined over any implementation
    of it. *)
Record ArithmeticOps : Type := {
  Add : binop;
  Subtract : binop;
  Multiply : binop;
  Divide : binop
}.

(** A body that is never instantiated at [T]: the visitor of its kernel has
    no case for [T]. *)
Definition not_instantiated {A : Type} : outcome A := Fail DtypeNotVisited.

(** [native::FloorDivide(x1, x2)] at type [T], by overload resolution. *)
Definition FloorDivide : binop :=
  fun T =>
    match T with
    | kBool => fun _ _ => not_instantiated
    | kInt8 => FloorDivide_int8
    | kInt16 => FloorDivide_int16
    | kInt32 => FloorDivide_int32
    | kInt64 => FloorDivide_int64
    | kUInt8 => FloorDivide_uint8
    | kFloat16 => fun x y => Ok (FloorDivide_Float16 x y)
    | kFloat32 => fun x y => Ok (FloorDivide_float x y)
    | kFloat64 => fun x y => Ok (FloorDivide_double x y)
    end.

(** [x1 & x2], [x1 | x2] and [x1 ^ x2] at type [T]. *)
Definition bitwise (fb : bool -> bool -> bool) (fz : Z -> Z -> Z) : binop :=
  fun T =>
    match T with
    | kBool => fun x y => Ok (fb x y)
    | kInt8 | kInt16 | kInt32 | kInt64 | kUInt8 => fun x y => Ok (fz x y)
    | kFloat16 | kFloat32 | kFloat64 => fun _ _ => not_instantiated
    end.

Definition BitwiseAnd : binop := bitwise andb Z.land.
Definition BitwiseOr : binop := bitwise orb Z.lor.
Definition BitwiseXor : binop := bitwise xorb Z.lxor.

(** ** Element-wise execution *)

Fixpoint mapM2 {A B C : Type} (f : A -> B -> outcome C)
    (l1 : list A) (l2 : list B) : outcome (list C) :=
  match l1, l2 with
  | [], [] => Ok []
  | a :: l1', b :: l2' => c <- f a b ;; cs <- mapM2 f l1' l2' ;; Ok (c :: cs)
  | _, _ => Fail ShapeMismatch
  end.

Definition check_same_length {A B : Type} (l1 : list A) (l2 : list B) : outcome unit :=
  if Nat.eqb (length l1) (length l2) then Ok tt else Fail ShapeMismatch.

(** Modelled from the spec: [Elementwise] of [chainerx/native/elementwise.h]
    is not part of the sources at hand.  It reads its operands at type
    [T], runs the transform once per logical index of the output and
    writes the output (spec, section 4.4); the result is the output array
    after the call. *)
Definition Elementwise1 (T : Dtype) (impl : val T -> outcome (val T))
    (x out : Array) : outcome Array :=
  xs <- typed_elems T x ;;
  os <- typed_elems T out ;;
  check_same_length xs os ;;;
  ys <- mapM impl xs ;;
  Ok (mkArray (device out) T ys).

(** Modelled from the spec: [Elementwise] with two inputs. *)
Definition Elementwise2 (T : Dtype) (impl : val T -> val T -> outcome (val T))
    (x1 x2 out : Array) : outcome Array :=
  xs1 <- typed_elems T x1 ;;
  xs2 <- typed_elems T x2 ;;
  os <- typed_elems T out ;;
  check_same_length xs1 os ;;;
  check_same_length xs2 os ;;;
  ys <- mapM2 impl xs1 xs2 ;;
  Ok (mkArray (device out) T ys).

(** ** Kernels *)

(** Modelled from the spec: the macro
    [CHAINERX_NATIVE_REGISTER_ELTWISE_DTYPE_BINARY_KERNEL(func, func_def, visit_dtype)]
    of [chainerx/native/kernel_regist.h] is not part of the sources at
    hand.  Its [Call] checks the devices, casts both inputs to the dtype of
    the output, dispatches on that dtype with [visit_dtype] and runs
    [func_def] element-wise (spec, sections 2 and 4.5), as the scalar
    classes of this file do for one input. *)
Definition ELTWISE_DTYPE_BINARY_KERNEL (func_def : binop) (visit_dtype : visitor)
    (x1 x2 out : Array) : outcome Array :=
  CheckDevicesCompatible (device x1) [x1; x2; out] ;;;
  x1_cast <- cast_to_dtype_of out x1 ;;
  x2_cast <- cast_to_dtype_of out x2 ;;
  visit_dtype Array (dtype out) (fun T =>
    Elementwise2 T (func_def T) x1_cast x2_cast out).

(** Modelled from the spec: [CHAINERX_NATIVE_REGISTER_ELTWISE_BINARY_KERNEL(func, func_def)]
    is the macro above with the full visitor [VisitDtype]. *)
Definition ELTWISE_BINARY_KERNEL (func_def : binop) : Array -> Array -> Array -> outcome Array :=
  ELTWISE_DTYPE_BINARY_KERNEL func_def VisitDtype.

(** The body shared by the array-scalar classes: they differ in the
    visitor and in the transform only. *)
Definition ASKernel_Call (visit_dtype : visitor) (op : binop)
    (x1 : Array) (x2 : Scalar) (out : Array) : outcome Array :=
  CheckDevicesCompatible (device x1) [x1; out] ;;;
  x1_cast <- cast_to_dtype_of out x1 ;;
  visit_dtype Array (dtype out) (fun T =>
    x2' <- static_cast T x2 ;;
    Elementwise1 T (fun x1 => op T x1 x2') x1_cast out).

(** The body shared by the scalar-array classes. *)
Definition SAKernel_Call (visit_dtype : visitor) (op : binop)
    (x1 : Scalar) (x2 : Array) (out : Array) : outcome Array :=
  CheckDevicesCompatible (device x2) [x2; out] ;;;
  x2_cast <- cast_to_dtype_of out x2 ;;
  visit_dtype Array (dtype out) (fun T =>
    x1' <- static_cast T x1 ;;
    Elementwise1 T (fun x2 => op T x1' x2) x2_cast out).

Section Kernels.

Variable ops : ArithmeticOps.
Variable bool_is_integral : bool.

Definition AddKernel_Call := ELTWISE_BINARY_KERNEL (Add ops).
Definition NativeAddASKernel_Call := ASKernel_Call VisitDtype (Add ops).

Definition SubtractKernel_Call :=
  ELTWISE_DTYPE_BINARY_KERNEL (Subtract ops) VisitNumericDtype.
Definition NativeSubtractASKernel_Call :=
  ASKernel_Call VisitNumericDtype (Subtract ops).

Definition MultiplyKernel_Call := ELTWISE_BINARY_KERNEL (Multiply ops).
Definition NativeMultiplyASKernel_Call := ASKernel_Call VisitDtype (Multiply ops).

Definition FloorDivideKernel_Call :=
  ELTWISE_DTYPE_BINARY_KERNEL FloorDivide VisitNumericDtype.
Definition NativeFloorDivideASKernel_Call :=
  ASKernel_Call VisitNumericDtype FloorDivide.
Definition NativeFloorDivideSAKernel_Call :=
  SAKernel_Call VisitNumericDtype FloorDivide.

Definition DivideKernel_Call := ELTWISE_BINARY_KERNEL (Divide ops).
Definition NativeDivideASKernel_Call := ASKernel_Call VisitDtype (Divide ops).
Definition NativeDivideSAKernel_Call := SAKernel_Call VisitDtype (Divide ops).

Definition BitwiseAndKernel_Call :=
  ELTWISE_DTYPE_BINARY_KERNEL BitwiseAnd (VisitIntegralDtype bool_is_integral).
Definition NativeBitwiseAndASKernel_Call :=
  ASKernel_Call (VisitIntegralDtype bool_is_integral) BitwiseAnd.

Definition BitwiseOrKernel_Call :=
  ELTWISE_DTYPE_BINARY_KERNEL BitwiseOr (VisitIntegralDtype bool_is_integral).
Definition NativeBitwiseOrASKernel_Call :=
  ASKernel_Call (VisitIntegralDtype bool_is_integral) BitwiseOr.

Definition BitwiseXorKernel_Call :=
  ELTWISE_DTYPE_BINARY_KERNEL BitwiseXor (VisitIntegralDtype bool_is_integral).
Definition NativeBitwiseXorASKernel_Call :=
  ASKernel_Call (VisitIntegralDtype bool_is_integral) BitwiseXor.

End Kernels.

(** ** The arithmetic of the element types *)

(** Modelled from the spec: [chainerx/arithmetic_ops.h] is not part of the
    sources at hand.  Each operator is the native one of the execution
    type (spec, sections 4.3 and 8): integers wrap, division has no zero
    guard, floating types follow IEEE 754, half precision computes in
    [float] and narrows, and [bool] operands are promoted to [int] and the
    result is converted back. *)
Definition native_arith
    (fz : Z -> Z -> outcome Z)
    (ff : Float.format -> spec_float -> spec_float -> spec_float) : binop :=
  fun T =>
    match T with
    | kBool => fun a b =>
        z <- fz (if a then 1 else 0) (if b then 1 else 0) ;; Ok (negb (z =? 0))
    | kInt8 => fun a b => z <- fz a b ;; Ok (Int.wrap 8 z)
    | kInt16 => fun a b => z <- fz a b ;; Ok (Int.wrap 16 z)
    | kInt32 => fun a b => z <- fz a b ;; Ok (Int.wrap 32 z)
    | kInt64 => fun a b => z <- fz a b ;; Ok (Int.wrap 64 z)
    | kUInt8 => fun a b => z <- fz a b ;; Ok (Int.uwrap 8 z)
    | kFloat16 => fun a b =>
        Ok (Float.convert Float.binary16
              (ff Float.binary32 (Float.convert Float.binary32 a)
                                 (Float.convert Float.binary32 b)))
    | kFloat32 => fun a b => Ok (ff Float.binary32 a b)
    | kFloat64 => fun a b => Ok (ff Float.binary64 a b)
    end.

(** Modelled from the spec: the four operators of section 4.3. *)
Definition native_ops : ArithmeticOps := {|
  Add := native_arith (fun a b => Ok (a + b)) Float.add;
  Subtract := native_arith (fun a b => Ok (a - b)) Float.sub;
  Multiply := native_arith (fun a b => Ok (a * b)) Float.mul;
  Divide :=
    native_arith
      (fun a b => if b =? 0 then Fail UndefinedBehavior else Ok (Z.quot a b))
      Float.div
|}.

(** ** Reference behaviour of the kernels *)

(** A visitor runs its callback at the dtype it is given when the dtype is
    in its subset, and fails otherwise. *)
Definition visits (v : visitor) (subset : Dtype -> bool) : Prop :=
  forall (A : Type) (T : Dtype) (f : Dtype -> outcome A),
    v A T f = if subset T then f T else Fail DtypeNotVisited.

Definition is_integral (bool_is_integral : bool) (T : Dtype) : bool :=
  match T with
  | kBool => bool_is_integral
  | _ => is_int T
  end.

(** What a kernel with the given subset and transform writes for one pair
    of elements. *)
Definition single_result (dev : Device) (T : Dtype) (x1 x2 : val T)
    (subset : Dtype -> bool) (op : binop) : outcome Array :=
  if subset T then y <- op T x1 x2 ;; Ok (mkArray dev T [y])
  else Fail DtypeNotVisited.

(** How a call ends when the dtype of the output is outside the visitor's
    subset: the device check comes first. *)
Definition rejection (dev : Device) (arrays : list Array) : fault :=
  if forallb (fun a => Nat.eqb (device a) dev) arrays
  then DtypeNotVisited
  else DeviceMismatch.


(** ** Reference semantics of floor division *)

(** The floor of the exact real quotient. *)
Definition floor_quotient (a b : Z) : Z := Zfloor (IZR a / IZR b)%R.

(** The 32-bit rule in the words of the spec (section 4.2): the truncating
    quotient, less one if the remainder is nonzero and its sign is opposite
    to the divisor's; zero for a zero divisor. *)
Definition floor_divide_rule (x y : Z) : Z :=
  if y =? 0 then 0
  else if negb (Z.rem x y =? 0) && negb (Z.sgn (Z.rem x y) =? Z.sgn y)
       then Z.quot x y - 1
       else Z.quot x y.

(** The sign of a floating value, read off its representation: zeros and
    NaN are neither negative nor positive. *)
Definition is_negative (x : spec_float) : bool :=
  match x with
  | S754_finite true _ _ | S754_infinity true => true
  | _ => false
  end.

Definition is_positive (x : spec_float) : bool :=
  match x with
  | S754_finite false _ _ | S754_infinity false => true
  | _ => false
  end.

(** The remainder's sign disagrees with the divisor's (spec, section 4.2):
    a negative remainder with a positive divisor, or a positive remainder
    with a negative divisor. *)
Definition signs_disagree (rem y : spec_float) : bool :=
  (is_negative rem && is_positive y) || (is_positive rem && is_negative y).

(** * Properties *)

(** ** Integer arithmetic *)

(** Closes range side conditions on concrete or linear operands. *)
Ltac int_range :=
  unfold Int.in_range, Int.in_urange, Int.min_value, Int.max_value in *;
  simpl in *; lia.

Lemma pow2_half (w : Z) : 0 < w -> 2 ^ w = 2 * 2 ^ (w - 1).
Proof.
  intros Hw. replace w with (Z.succ (w - 1)) at 1 by lia.
  rewrite Z.pow_succ_r by lia. reflexivity.
Qed.

Lemma wrap_in_range (w z : Z) : 0 < w -> Int.in_range w z -> Int.wrap w z = z.
Proof.
  unfold Int.in_range, Int.wrap, Int.min_value, Int.max_value. intros Hw Hz.
  rewrite (pow2_half w Hw).
  assert (0 < 2 ^ (w - 1)) by (apply Z.pow_pos_nonneg; lia).
  rewrite Z.mod_small; lia.
Qed.


Lemma uwrap_in_range (w z : Z) : Int.in_urange w z -> Int.uwrap w z = z.
Proof. unfold Int.in_urange, Int.uwrap. intros Hz. apply Z.mod_small, Hz. Qed.

Lemma in_rangeb_spec (w z : Z) : Int.in_rangeb w z = true <-> Int.in_range w z.
Proof. unfold Int.in_rangeb, Int.in_range. lia. Qed.

Lemma in_range_widen (w w' z : Z) :
  0 < w <= w' -> Int.in_range w z -> Int.in_range w' z.
Proof.
  unfold Int.in_range, Int.min_value, Int.max_value. intros Hw Hz.
  assert (2 ^ (w - 1) <= 2 ^ (w' - 1)) by (apply Z.pow_le_mono_r; lia).
  lia.
Qed.

Lemma checked_in_range (w z : Z) : Int.in_range w z -> Int.checked w z = Ok z.
Proof.
  intros Hz. unfold Int.checked.
  now rewrite (proj2 (in_rangeb_spec w z) Hz).
Qed.

(** The truncating quotient, adjusted as the source adjusts it, is [Z.div]. *)
Lemma quot_adjust_div (x y : Z) :
  y <> 0 ->
  Z.quot x y - (if (if y >=? 0 then Z.rem x y else - Z.rem x y) <? 0 then 1 else 0)
  = x / y.
Proof.
  intros Hy.
  pose proof (Z.quot_rem' x y) as Hqr.
  assert (Hrb : Z.abs (Z.rem x y) < Z.abs y) by (apply Z.rem_bound_abs; exact Hy).
  destruct (y >=? 0) eqn:Ey; destruct (_ <? 0) eqn:Er.
  - apply Z.div_unique with (r := Z.rem x y + y); [left; lia | lia].
  - rewrite Z.sub_0_r. apply Z.div_unique with (r := Z.rem x y); [left; lia | lia].
  - apply Z.div_unique with (r := Z.rem x y + y); [right; lia | lia].
  - rewrite Z.sub_0_r. apply Z.div_unique with (r := Z.rem x y); [right; lia | lia].
Qed.

Lemma floor_quotient_div (a b : Z) : b <> 0 -> floor_quotient a b = a / b.
Proof.
  intros Hb. unfold floor_quotient. apply Zfloor_eq.
  pose proof (Z.div_mod a b Hb) as Hdm.
  assert (HbR : IZR b <> 0%R) by (apply not_0_IZR; exact Hb).
  set (r := (IZR a / IZR b)%R).
  assert (Hr : IZR a = (r * IZR b)%R) by (unfold r; field; exact HbR).
  assert (Ha : IZR a = (IZR b * IZR (a / b) + IZR (a mod b))%R).
  { rewrite <- mult_IZR, <- plus_IZR. now f_equal. }
  destruct (Z.lt_total b 0) as [Hneg | [H0 | Hpos]]; [| contradiction |].
  - pose proof (Z.mod_neg_bound a b Hneg) as [Hlo Hhi].
    apply IZR_lt in Hlo, Hneg. apply IZR_le in Hhi. nra.
  - pose proof (Z.mod_pos_bound a b Hpos) as [Hlo Hhi].
    apply IZR_lt in Hhi, Hpos. apply IZR_le in Hlo. nra.
Qed.

Lemma div_in_range (w a b : Z) :
  0 < w -> Int.in_range w a -> b <> 0 -> ~ (a = Int.min_value w /\ b = -1) ->
  Int.in_range w (a / b).
Proof.
  unfold Int.in_range, Int.min_value, Int.max_value. intros Hw Ha Hb Hmin.
  assert (0 < 2 ^ (w - 1)) by (apply Z.pow_pos_nonneg; lia).
  pose proof (Z.div_mod a b Hb) as Hdm.
  destruct (Z.lt_total b 0) as [Hneg | [H0 | Hpos]]; [| contradiction |].
  - pose proof (Z.mod_neg_bound a b Hneg). nia.
  - pose proof (Z.mod_pos_bound a b Hpos). nia.
Qed.

Lemma rem_in_range (w a b : Z) :
  Int.in_range w b -> b <> 0 -> Int.in_range w (Z.rem a b) /\ Int.in_range w (- Z.rem a b).
Proof.
  unfold Int.in_range, Int.min_value, Int.max_value. intros Hb Hb0.
  pose proof (Z.rem_bound_abs a b Hb0). lia.
Qed.

(** On operands where [std::div] is defined, the signed overload returns
    the floor quotient and meets no undefined operation on the way. *)
Lemma FloorDivide_int_div (w a b : Z) :
  0 < w -> Int.in_range w a -> Int.in_range w b ->
  b <> 0 -> ~ (a = Int.min_value w /\ b = -1) ->
  FloorDivide_int w a b = Ok (a / b).
Proof.
  intros Hw Ha Hb Hb0 Hmin. unfold FloorDivide_int, Int.std_div.
  destruct (b =? 0) eqn:E0; [lia |].
  destruct ((a =? Int.min_value w) && (b =? -1)) eqn:Em; [lia |].
  cbn [bind Int.quot Int.rem orb].
  destruct (rem_in_range w a b Hb Hb0) as [Hr Hnr].
  pose proof (quot_adjust_div a b Hb0) as Hadj.
  pose proof (div_in_range w a b Hw Ha Hb0 Hmin) as Hq.
  unfold Int.neg, Int.sub.
  destruct (b >=? 0) eqn:Eb; cbn [bind].
  - rewrite Hadj. apply checked_in_range, Hq.
  - rewrite (checked_in_range _ _ Hnr). cbn [bind].
    rewrite Hadj. apply checked_in_range, Hq.
Qed.

Lemma floor_divide_rule_div (x y : Z) : y <> 0 -> floor_divide_rule x y = x / y.
Proof.
  intros Hy. unfold floor_divide_rule.
  destruct (y =? 0) eqn:E0; [lia |].
  rewrite <- (quot_adjust_div x y Hy).
  pose proof (Z.rem_bound_abs x y Hy).
  destruct (y >=? 0) eqn:Ey;
    destruct (_ <? 0) eqn:Er;
    destruct (negb _ && negb _) eqn:Es; lia.
Qed.

Lemma in_range_16_32 (z : Z) : Int.in_range 16 z -> Int.in_range 32 z.
Proof. apply in_range_widen. lia. Qed.

(** The 8- and 16-bit overloads, through the 32-bit one: no operand a
    narrow type can hold reaches the undefined case of [std::div]. *)
Lemma FloorDivide_int32_narrow_operands (a b : Z) :
  Int.in_range 16 a -> Int.in_range 16 b -> b <> 0 ->
  FloorDivide_int32 (Int.wrap 32 a) (Int.wrap 32 b) = Ok (a / b).
Proof.
  intros Ha Hb Hb0.
  rewrite !wrap_in_range by (try lia; now apply in_range_16_32).
  apply FloorDivide_int_div; try lia; try now apply in_range_16_32.
  unfold Int.in_range, Int.min_value, Int.max_value in *.
  change (2 ^ (16 - 1)) with 32768 in *. change (2 ^ (32 - 1)) with 2147483648. lia.
Qed.

Lemma in_range_8_16 (z : Z) : Int.in_range 8 z -> Int.in_range 16 z.
Proof. apply in_range_widen. lia. Qed.

(** ** Floor division on signed integers *)

(** C1, as amended: on every signed integer type and for all [a], [b] of
    the type with [b <> 0], other than the lowest value divided by [-1],
    [FloorDivide(a, b)] is the floor of the exact real quotient [a / b];
    [FloorDivide(-7, 2)] is [-4]. *)
Theorem FloorDivide_signed_is_floor (a b : Z) :
  b <> 0 ->
  (Int.in_range 8 a -> Int.in_range 8 b -> ~ (a = Int.min_value 8 /\ b = -1) ->
   FloorDivide_int8 a b = Ok (floor_quotient a b)) /\
  (Int.in_range 16 a -> Int.in_range 16 b -> ~ (a = Int.min_value 16 /\ b = -1) ->
   FloorDivide_int16 a b = Ok (floor_quotient a b)) /\
  (Int.in_range 32 a -> Int.in_range 32 b -> ~ (a = Int.min_value 32 /\ b = -1) ->
   FloorDivide_int32 a b = Ok (floor_quotient a b)) /\
  (Int.in_range 64 a -> Int.in_range 64 b -> ~ (a = Int.min_value 64 /\ b = -1) ->
   FloorDivide_int64 a b = Ok (floor_quotient a b)) /\
  FloorDivide_int8 (-7) 2 = Ok (-4) /\ FloorDivide_int16 (-7) 2 = Ok (-4) /\
  FloorDivide_int32 (-7) 2 = Ok (-4) /\ FloorDivide_int64 (-7) 2 = Ok (-4).
Proof.
  intros Hb0. rewrite (floor_quotient_div a b Hb0).
  repeat split; try reflexivity.
  - intros Ha Hb Hmin. unfold FloorDivide_int8.
    rewrite FloorDivide_int32_narrow_operands by (try apply in_range_8_16; assumption).
    cbn [bind]. f_equal. apply wrap_in_range; [lia |].
    apply div_in_range; try assumption; lia.
  - intros Ha Hb Hmin. unfold FloorDivide_int16.
    rewrite FloorDivide_int32_narrow_operands by assumption.
    cbn [bind]. f_equal. apply wrap_in_range; [lia |].
    apply div_in_range; try assumption; lia.
  - intros Ha Hb Hmin. apply FloorDivide_int_div; try assumption; lia.
  - intros Ha Hb Hmin. apply FloorDivide_int_div; try assumption; lia.
Qed.

Lemma FloorDivide_signed_is_floor_witness :
  FloorDivide_int8 (-7) 2 = Ok (floor_quotient (-7) 2) /\
  FloorDivide_int64 (-9) (-4) = Ok (floor_quotient (-9) (-4)).
Proof.
  split.
  - destruct (FloorDivide_signed_is_floor (-7) 2) as (H8 & _); [lia |].
    apply H8; int_range.
  - destruct (FloorDivide_signed_is_floor (-9) (-4)) as (_ & _ & _ & H64 & _); [lia |].
    apply H64; int_range.
Defined.

(** C1, as stated, fails: the lowest [int8] value divided by [-1] gives
    [-128], while the floor of the real quotient is [128]. *)
Lemma FloorDivide_signed_is_floor_counterexample :
  Int.in_range 8 (-128) /\ Int.in_range 8 (-1) /\ -1 <> 0 /\
  FloorDivide_int8 (-128) (-1) = Ok (-128) /\
  floor_quotient (-128) (-1) = 128 /\
  FloorDivide_int8 (-128) (-1) <> Ok (floor_quotient (-128) (-1)).
Proof.
  assert (Hf : floor_quotient (-128) (-1) = 128)
    by (rewrite floor_quotient_div by lia; reflexivity).
  split; [int_range |].
  split; [int_range |].
  split; [lia |].
  split; [reflexivity |].
  split; [exact Hf |].
  rewrite Hf. change (FloorDivide_int8 (-128) (-1)) with (@Ok Z (-128)).
  intros H. injection H as H. lia.
Qed.

(** On the 32- and 64-bit types the lowest value divided by [-1] is where
    [std::div] is undefined. *)
Lemma FloorDivide_int_lowest (w : Z) :
  FloorDivide_int w (Int.min_value w) (-1) = Fail UndefinedBehavior.
Proof.
  unfold FloorDivide_int, Int.std_div. rewrite Z.eqb_refl. reflexivity.
Qed.

(** ** The zero divisor on integers *)

(** C2: on every integer type (int8, int16, int32, int64, uint8) and for
    every [a], [FloorDivide(a, 0)] returns [0]; it does not fail. *)
Theorem FloorDivide_integer_zero_divisor (a : Z) :
  FloorDivide_int8 a 0 = Ok 0 /\
  FloorDivide_int16 a 0 = Ok 0 /\
  FloorDivide_int32 a 0 = Ok 0 /\
  FloorDivide_int64 a 0 = Ok 0 /\
  FloorDivide_uint8 a 0 = Ok 0.
Proof. repeat split. Qed.

(** ** The narrow signed overloads refine the 32-bit rule *)

(** C6: for all [int8] values [x], [y], the 32-bit overload is defined on
    the widened operands and returns what the 32-bit rule of the spec
    gives, and [FloorDivide(x, y)] on [int8] is that result narrowed to
    [int8]; likewise for [int16]. *)
Theorem FloorDivide_narrow_refines_int32 (x y : Z) :
  (Int.in_range 8 x -> Int.in_range 8 y ->
   FloorDivide_int32 (Int.wrap 32 x) (Int.wrap 32 y) = Ok (floor_divide_rule x y) /\
   FloorDivide_int8 x y = Ok (Int.wrap 8 (floor_divide_rule x y))) /\
  (Int.in_range 16 x -> Int.in_range 16 y ->
   FloorDivide_int32 (Int.wrap 32 x) (Int.wrap 32 y) = Ok (floor_divide_rule x y) /\
   FloorDivide_int16 x y = Ok (Int.wrap 16 (floor_divide_rule x y))).
Proof.
  assert (H32 : Int.in_range 16 x -> Int.in_range 16 y ->
                FloorDivide_int32 (Int.wrap 32 x) (Int.wrap 32 y)
                = Ok (floor_divide_rule x y)).
  { intros Hx Hy. destruct (Z.eq_dec y 0) as [-> | Hy0].
    - reflexivity.
    - rewrite floor_divide_rule_div by exact Hy0.
      now apply FloorDivide_int32_narrow_operands. }
  split; intros Hx Hy.
  - apply in_range_8_16 in Hx, Hy. unfold FloorDivide_int8.
    rewrite (H32 Hx Hy). split; reflexivity.
  - unfold FloorDivide_int16. rewrite (H32 Hx Hy). split; reflexivity.
Qed.

Lemma FloorDivide_narrow_refines_int32_witness :
  FloorDivide_int8 (-100) 7 = Ok (Int.wrap 8 (floor_divide_rule (-100) 7)) /\
  FloorDivide_int16 (-32768) (-1) = Ok (Int.wrap 16 (floor_divide_rule (-32768) (-1))).
Proof.
  split.
  - apply (proj1 (FloorDivide_narrow_refines_int32 (-100) 7));
      int_range.
  - apply (proj2 (FloorDivide_narrow_refines_int32 (-32768) (-1)));
      int_range.
Defined.

(** ** The lowest value divided by minus one *)

(** C10: [FloorDivide(-128, -1)] on [int8] returns [-128] and
    [FloorDivide(-32768, -1)] on [int16] returns [-32768], without failing:
    the 32-bit computation gives [128] and [32768], and narrowing wraps
    them modulo [2^8] and [2^16]. *)
Theorem FloorDivide_narrow_lowest_wraps :
  FloorDivide_int8 (-128) (-1) = Ok (-128) /\
  FloorDivide_int16 (-32768) (-1) = Ok (-32768) /\
  FloorDivide_int32 (Int.wrap 32 (-128)) (Int.wrap 32 (-1)) = Ok 128 /\
  FloorDivide_int32 (Int.wrap 32 (-32768)) (Int.wrap 32 (-1)) = Ok 32768 /\
  Int.wrap 8 128 = -128 /\ Int.wrap 16 32768 = -32768 /\
  (128 - (-128)) mod 2 ^ 8 = 0 /\ (32768 - (-32768)) mod 2 ^ 16 = 0.
Proof. repeat split. Qed.

(** ** Floor division on floating types *)

Lemma ltb_zero_r (fmt : Float.format) (x : spec_float) :
  Float.ltb x (Float.of_int fmt 0) = is_negative x.
Proof. destruct x as [[]|[]| |[] m e]; reflexivity. Qed.

Lemma ltb_zero_l (fmt : Float.format) (x : spec_float) :
  Float.ltb (Float.of_int fmt 0) x = is_positive x.
Proof. destruct x as [[]|[]| |[] m e]; reflexivity. Qed.

Lemma sub_zero_r (fmt : Float.format) (x : spec_float) :
  Float.sub fmt x (Float.of_int fmt 0) = x.
Proof. destruct x as [[]|[]| |[] m e]; reflexivity. Qed.

Lemma fmod_zero_divisor (fmt : Float.format) (x : spec_float) (s : bool) :
  Float.fmod fmt x (S754_zero s) = Float.nan.
Proof. destruct x; reflexivity. Qed.

Lemma sub_nan_r (fmt : Float.format) (x : spec_float) :
  Float.sub fmt x Float.nan = Float.nan.
Proof. destruct x; reflexivity. Qed.

(** The floating rule, with the sign test read off the representations. *)
Lemma FloorDivide_fp_rule (fmt : Float.format) (x y : spec_float) :
  FloorDivide_fp fmt x y =
  let rem := Float.fmod fmt x y in
  let q := Float.div fmt (Float.sub fmt x rem) y in
  if signs_disagree rem y then Float.sub fmt q (Float.of_int fmt 1) else q.
Proof.
  unfold FloorDivide_fp, signs_disagree. cbv zeta.
  rewrite !ltb_zero_r, !ltb_zero_l.
  destruct (is_negative _ && is_positive y || is_positive _ && is_negative y).
  - reflexivity.
  - apply sub_zero_r.
Qed.

(** Without a guard, a zero divisor makes the remainder, and with it the
    result, NaN. *)
Lemma FloorDivide_fp_zero_divisor (fmt : Float.format) (x : spec_float) (s : bool) :
  FloorDivide_fp fmt x (S754_zero s) = Float.nan.
Proof.
  unfold FloorDivide_fp. rewrite fmod_zero_divisor, sub_nan_r. reflexivity.
Qed.

(** ** Conversions between floating formats *)

Lemma iter_pos_nat {A : Type} (f : A -> A) (n : positive) (x : A) :
  iter_pos f n x = Nat.iter (Pos.to_nat n) f x.
Proof.
  revert x. induction n as [n IH | n IH |]; intros x; cbn [iter_pos].
  - rewrite !IH, Pos2Nat.inj_xI, <- Nat.iter_add.
    replace (S (2 * Pos.to_nat n)) with (S (Pos.to_nat n + Pos.to_nat n)) by lia.
    now rewrite Nat.iter_succ_r.
  - rewrite !IH, Pos2Nat.inj_xO, <- Nat.iter_add.
    f_equal. lia.
  - reflexivity.
Qed.

Lemma shr_1_iter_xO (n : nat) (m : positive) :
  Nat.iter n shr_1 (Build_shr_record (Z.pos (Nat.iter n xO m)) false false)
  = Build_shr_record (Z.pos m) false false.
Proof.
  induction n as [| n IH]; [reflexivity |].
  rewrite Nat.iter_succ_r. exact IH.
Qed.

Lemma digits2_iter_xO (n : nat) (m : positive) :
  Z.pos (digits2_pos (Nat.iter n xO m)) = Z.pos (digits2_pos m) + Z.of_nat n.
Proof.
  induction n as [| n IH]; [cbn; lia |].
  cbn [Nat.iter nat_rect digits2_pos]. rewrite Pos2Z.inj_succ. 
  change (nat_rect (fun _ => positive) m (fun _ => xO) n) with (Nat.iter n xO m). lia.
Qed.


Lemma shl_iter_nat (m k : positive) :
  Pos.iter xO m k = Nat.iter (Pos.to_nat k) xO m.
Proof. apply Pos2Nat.inj_iter. Qed.

(** Rounding a mantissa that is already canonical changes nothing. *)
Lemma binary_round_aux_canonical (p E : Z) (s : bool) (m : positive) (e : Z) :
  bounded p E m e = true ->
  binary_round_aux p E s (Z.pos m) e loc_Exact = S754_finite s m e.
Proof.
  unfold bounded, canonical_mantissa. intros Hb.
  apply andb_prop in Hb as [Hc He]. apply Z.eqb_eq in Hc.
  unfold binary_round_aux, shr_fexp. cbn [Zdigits2 shr_record_of_loc].
  rewrite Hc, Z.sub_diag. cbn [shr shr_m loc_of_shr_record round_nearest_even Zdigits2].
  rewrite Hc, Z.sub_diag. cbn [shr shr_m]. rewrite He. reflexivity.
Qed.

Lemma binary_round_canonical (p E : Z) (s : bool) (m : positive) (e : Z) :
  bounded p E m e = true ->
  binary_round p E s m e = S754_finite s m e.
Proof.
  intros Hb. unfold binary_round, shl_align.
  pose proof Hb as Hb'. unfold bounded, canonical_mantissa in Hb'.
  apply andb_prop in Hb' as [Hc _]. apply Z.eqb_eq in Hc.
  rewrite Hc, Z.sub_diag. now apply binary_round_aux_canonical.
Qed.

(** Rounding a canonical mantissa shifted left by [k] bits shifts it back. *)
Lemma binary_round_shifted (p E : Z) (s : bool) (m k : positive) (e : Z) :
  bounded p E m e = true ->
  binary_round p E s (Pos.iter xO m k) (e - Z.pos k) = S754_finite s m e.
Proof.
  intros Hb. pose proof Hb as Hb'. unfold bounded, canonical_mantissa in Hb'.
  apply andb_prop in Hb' as [Hc He]. apply Z.eqb_eq in Hc.
  assert (Hd : Z.pos (digits2_pos (Pos.iter xO m k)) + (e - Z.pos k)
               = Z.pos (digits2_pos m) + e).
  { rewrite shl_iter_nat, digits2_iter_xO, positive_nat_Z. lia. }
  unfold binary_round, shl_align. rewrite Hd, Hc.
  replace (e - (e - Z.pos k)) with (Z.pos k) by lia.
  unfold binary_round_aux, shr_fexp. cbn [Zdigits2 shr_record_of_loc].
  rewrite Hd, Hc. replace (e - (e - Z.pos k)) with (Z.pos k) by lia.
  cbn [shr]. rewrite iter_pos_nat, shl_iter_nat, shr_1_iter_xO.
  cbn [shr_m loc_of_shr_record round_nearest_even Zdigits2].
  replace (e - Z.pos k + Z.pos k) with e by lia.
  rewrite Hc, Z.sub_diag. cbn [shr shr_m]. rewrite He. reflexivity.
Qed.

(** Widening is exact: it only shifts the mantissa. *)
Lemma binary_round_widen (p1 E1 p2 E2 : Z) (s : bool) (m : positive) (e : Z) :
  Float.extends {| Float.prec := p1; Float.emax := E1 |}
                {| Float.prec := p2; Float.emax := E2 |} ->
  bounded p1 E1 m e = true ->
  binary_round p2 E2 s m e = S754_finite s m e
  \/ exists k, binary_round p2 E2 s m e = S754_finite s (Pos.iter xO m k) (e - Z.pos k).
Proof.
  intros (Hp & Hlo & Hhi) Hb. cbn [Float.prec Float.emax] in *.
  unfold bounded, canonical_mantissa in Hb.
  apply andb_prop in Hb as [Hc He]. apply Z.eqb_eq in Hc. apply Z.leb_le in He.
  unfold fexp, emin in Hc.
  unfold binary_round, shl_align.
  destruct (fexp p2 E2 (Z.pos (digits2_pos m) + e) - e) as [| k | k] eqn:Ek.
  - left. apply binary_round_aux_canonical.
    unfold bounded, canonical_mantissa. apply andb_true_intro. split.
    + apply Z.eqb_eq. lia.
    + apply Z.leb_le. lia.
  - unfold fexp, emin in Ek. lia.
  - right. exists k.
    replace (fexp p2 E2 (Z.pos (digits2_pos m) + e)) with (e - Z.pos k) by lia.
    apply binary_round_aux_canonical.
    unfold bounded, canonical_mantissa. apply andb_true_intro.
    rewrite shl_iter_nat, digits2_iter_xO, positive_nat_Z.
    split.
    + apply Z.eqb_eq. replace (Z.pos (digits2_pos m) + Z.pos k + (e - Z.pos k))
        with (Z.pos (digits2_pos m) + e) by lia. lia.
    + apply Z.leb_le. lia.
Qed.

(** Converting to a format that extends the value's own, and back, gives
    the value again. *)
Lemma convert_round_trip (f1 f2 : Float.format) (x : spec_float) :
  Float.extends f1 f2 ->
  Float.valid f1 x = true ->
  Float.convert f1 (Float.convert f2 x) = x.
Proof.
  destruct f1 as [p1 E1], f2 as [p2 E2]. unfold Float.valid.
  intros Hext Hv. destruct x as [s0 | s0 | | s m e]; try reflexivity.
  cbn [valid_binary Float.prec Float.emax] in Hv.
  cbn [Float.convert Float.prec Float.emax].
  destruct (binary_round_widen p1 E1 p2 E2 s m e Hext Hv) as [-> | [k ->]].
  - now apply binary_round_canonical.
  - now apply binary_round_shifted.
Qed.

Lemma binary32_extends_binary16 : Float.extends Float.binary16 Float.binary32.
Proof. unfold Float.extends. simpl. lia. Qed.

Lemma binary64_extends_binary16 : Float.extends Float.binary16 Float.binary64.
Proof. unfold Float.extends. simpl. lia. Qed.

Lemma binary64_extends_binary32 : Float.extends Float.binary32 Float.binary64.
Proof. unfold Float.extends. simpl. lia. Qed.

Lemma binary64_extends_binary64 : Float.extends Float.binary64 Float.binary64.
Proof. unfold Float.extends. simpl. lia. Qed.

(** ** The floating overloads *)

(** C9: on [float] and [double], [FloorDivide(x, y)] is
    [(x - fmod(x, y)) / y], less one exactly when the sign of the remainder
    disagrees with the sign of the divisor; [FloorDivide(7.5, -2.0)] and
    [FloorDivide(-7.5, 2.0)] are [-4.0]; the [Float16] overload promotes
    both operands to [float] (which loses nothing), applies the [float]
    rule and narrows the result to half precision. *)
Theorem FloorDivide_floating_rule :
  (forall x y,
     FloorDivide_float x y =
     let rem := Float.fmod Float.binary32 x y in
     let q := Float.div Float.binary32 (Float.sub Float.binary32 x rem) y in
     if signs_disagree rem y
     then Float.sub Float.binary32 q (Float.of_int Float.binary32 1) else q) /\
  (forall x y,
     FloorDivide_double x y =
     let rem := Float.fmod Float.binary64 x y in
     let q := Float.div Float.binary64 (Float.sub Float.binary64 x rem) y in
     if signs_disagree rem y
     then Float.sub Float.binary64 q (Float.of_int Float.binary64 1) else q) /\
  FloorDivide_float (Float.of_Z_exp Float.binary32 15 (-1)) (Float.of_int Float.binary32 (-2))
  = Float.of_int Float.binary32 (-4) /\
  FloorDivide_float (Float.of_Z_exp Float.binary32 (-15) (-1)) (Float.of_int Float.binary32 2)
  = Float.of_int Float.binary32 (-4) /\
  FloorDivide_double (Float.of_Z_exp Float.binary64 15 (-1)) (Float.of_int Float.binary64 (-2))
  = Float.of_int Float.binary64 (-4) /\
  FloorDivide_double (Float.of_Z_exp Float.binary64 (-15) (-1)) (Float.of_int Float.binary64 2)
  = Float.of_int Float.binary64 (-4) /\
  (forall x y,
     FloorDivide_Float16 x y =
     Float.convert Float.binary16
       (FloorDivide_float (Float.convert Float.binary32 x) (Float.convert Float.binary32 y))) /\
  (forall x,
     Float.valid Float.binary16 x = true ->
     Float.convert Float.binary16 (Float.convert Float.binary32 x) = x) /\
  FloorDivide_Float16 (Float.of_Z_exp Float.binary16 15 (-1)) (Float.of_int Float.binary16 (-2))
  = Float.of_int Float.binary16 (-4) /\
  FloorDivide_Float16 (Float.of_Z_exp Float.binary16 (-15) (-1)) (Float.of_int Float.binary16 2)
  = Float.of_int Float.binary16 (-4).
Proof.
  split; [intros x y; apply FloorDivide_fp_rule |].
  split; [intros x y; apply FloorDivide_fp_rule |].
  do 4 (split; [vm_compute; reflexivity |]).
  split; [reflexivity |].
  split; [intros x Hx; apply convert_round_trip;
          [exact binary32_extends_binary16 | exact Hx] |].
  split; vm_compute; reflexivity.
Qed.

Lemma FloorDivide_floating_rule_witness :
  Float.valid Float.binary16 (Float.of_Z_exp Float.binary16 15 (-1)) = true /\
  Float.convert Float.binary16
    (Float.convert Float.binary32 (Float.of_Z_exp Float.binary16 15 (-1)))
  = Float.of_Z_exp Float.binary16 15 (-1).
Proof.
  split; [reflexivity |].
  apply (proj1 (proj2 (proj2 (proj2 (proj2 (proj2 (proj2 (proj2
           FloorDivide_floating_rule)))))))).
  reflexivity.
Defined.

(** ** The zero divisor across the floor-divide paths *)

(** C4, as amended: every integer floor-divide path (int8, int16, int32,
    int64, uint8) returns [0] for a zero divisor; the floating paths
    (float32, float64, float16) have no zero guard, and for every [a] and
    either zero [FloorDivide(a, 0)] is NaN. *)
Theorem FloorDivide_zero_divisor_by_path (a : Z) (x : spec_float) (s : bool) :
  FloorDivide kInt8 a 0 = Ok 0 /\
  FloorDivide kInt16 a 0 = Ok 0 /\
  FloorDivide kInt32 a 0 = Ok 0 /\
  FloorDivide kInt64 a 0 = Ok 0 /\
  FloorDivide kUInt8 a 0 = Ok 0 /\
  FloorDivide kFloat32 x (S754_zero s) = Ok Float.nan /\
  FloorDivide kFloat64 x (S754_zero s) = Ok Float.nan /\
  FloorDivide kFloat16 x (S754_zero s) = Ok Float.nan.
Proof.
  do 5 (split; [reflexivity |]).
  cbn [FloorDivide]. unfold FloorDivide_Float16, FloorDivide_float, FloorDivide_double.
  cbn [Float.convert]. rewrite !FloorDivide_fp_zero_divisor. repeat split.
Qed.

(** C4, as stated, fails: [FloorDivide(1.0f, 0.0f)] is NaN, which is not
    zero, neither as a value nor under floating comparison. *)
Lemma FloorDivide_zero_divisor_by_path_counterexample :
  FloorDivide kFloat32 (Float.of_int Float.binary32 1) (Float.of_int Float.binary32 0)
  = Ok Float.nan /\
  FloorDivide kFloat32 (Float.of_int Float.binary32 1) (Float.of_int Float.binary32 0)
  <> Ok (Float.of_int Float.binary32 0) /\
  SFeqb Float.nan (Float.of_int Float.binary32 0) = false.
Proof.
  split; [reflexivity |]. split; [| reflexivity].
  vm_compute. discriminate.
Qed.

(** ** Kernels *)

Lemma Dtype_eq_dec_refl (T : Dtype) : Dtype_eq_dec T T = left eq_refl.
Proof. destruct T; reflexivity. Qed.

Lemma typed_elems_same (dev : Device) (T : Dtype) (xs : list (val T)) :
  typed_elems T (mkArray dev T xs) = Ok xs.
Proof. unfold typed_elems. cbn [dtype elems]. now rewrite Dtype_eq_dec_refl. Qed.

Lemma cast_to_same_dtype (out x : Array) :
  dtype x = dtype out -> cast_to_dtype_of out x = Ok x.
Proof.
  intros H. unfold cast_to_dtype_of.
  destruct (Dtype_eq_dec (dtype x) (dtype out)); [reflexivity | contradiction].
Qed.

(** Conversion through a scalar gives back a value of the type. *)
Lemma static_cast_Scalar_of (T : Dtype) (v : val T) :
  representable T v -> static_cast T (Scalar_of T v) = Ok v.
Proof.
  destruct T; cbn [representable static_cast Scalar_of inject to_int to_bool to_float];
    intros Hv.
  - reflexivity.
  - rewrite (wrap_in_range 64), wrap_in_range;
      solve [reflexivity | lia | exact Hv | now apply (in_range_widen 8)].
  - rewrite (wrap_in_range 64), wrap_in_range;
      solve [reflexivity | lia | exact Hv | now apply (in_range_widen 16)].
  - rewrite (wrap_in_range 64), wrap_in_range;
      solve [reflexivity | lia | exact Hv | now apply (in_range_widen 32)].
  - rewrite (wrap_in_range 64 v), (wrap_in_range 64 v);
      solve [reflexivity | lia | exact Hv].
  - rewrite (wrap_in_range 64), uwrap_in_range;
      solve [reflexivity | lia | exact Hv | int_range].
  - now rewrite (convert_round_trip _ _ _ binary64_extends_binary16 Hv).
  - now rewrite (convert_round_trip _ _ _ binary64_extends_binary32 Hv).
  - now rewrite (convert_round_trip _ _ _ binary64_extends_binary64 Hv).
Qed.

Lemma VisitDtype_visits : visits VisitDtype (fun _ => true).
Proof. intros A T f. reflexivity. Qed.

Lemma VisitNumericDtype_visits : visits VisitNumericDtype is_numeric.
Proof. intros A T f. destruct T; reflexivity. Qed.

Lemma VisitIntegralDtype_visits (b : bool) :
  visits (VisitIntegralDtype b) (is_integral b).
Proof. intros A T f. destruct T; reflexivity. Qed.

Lemma CheckDevicesCompatible_same (dev : Device) (T : Dtype) (ls : list (list (val T))) :
  CheckDevicesCompatible dev (map (mkArray dev T) ls) = Ok tt.
Proof.
  unfold CheckDevicesCompatible.
  replace (forallb _ _) with true; [reflexivity |].
  symmetry. apply forallb_forall. intros a Ha. apply in_map_iff in Ha as (l & <- & _).
  apply Nat.eqb_refl.
Qed.

Section SingleElement.

Variables (dev : Device) (T : Dtype) (x1 x2 o : val T).

Let X1 := mkArray dev T [x1].
Let X2 := mkArray dev T [x2].
Let OUT := mkArray dev T [o].

Lemma ELTWISE_single (v : visitor) (subset : Dtype -> bool) (op : binop) :
  visits v subset ->
  ELTWISE_DTYPE_BINARY_KERNEL op v X1 X2 OUT = single_result dev T x1 x2 subset op.
Proof.
  intros Hv. unfold ELTWISE_DTYPE_BINARY_KERNEL, single_result.
  change (CheckDevicesCompatible (device X1) [X1; X2; OUT])
    with (CheckDevicesCompatible dev (map (mkArray dev T) [[x1]; [x2]; [o]])).
  rewrite CheckDevicesCompatible_same. cbn [bind].
  rewrite !cast_to_same_dtype by reflexivity. cbn [bind dtype OUT].
  rewrite Hv. destruct (subset T); [| reflexivity].
  unfold Elementwise2, X1, X2, OUT. rewrite !typed_elems_same. cbn.
  destruct (op T x1 x2); reflexivity.
Qed.

Lemma ASKernel_single (v : visitor) (subset : Dtype -> bool) (op : binop) :
  visits v subset -> representable T x2 ->
  ASKernel_Call v op X1 (Scalar_of T x2) OUT = single_result dev T x1 x2 subset op.
Proof.
  intros Hv Hx2. unfold ASKernel_Call, single_result.
  change (CheckDevicesCompatible (device X1) [X1; OUT])
    with (CheckDevicesCompatible dev (map (mkArray dev T) [[x1]; [o]])).
  rewrite CheckDevicesCompatible_same. cbn [bind].
  rewrite !cast_to_same_dtype by reflexivity. cbn [bind dtype OUT].
  rewrite Hv. destruct (subset T); [| reflexivity].
  rewrite static_cast_Scalar_of by exact Hx2. cbn [bind].
  unfold Elementwise1, X1, OUT. rewrite !typed_elems_same. cbn.
  destruct (op T x1 x2); reflexivity.
Qed.

Lemma SAKernel_single (v : visitor) (subset : Dtype -> bool) (op : binop) :
  visits v subset -> representable T x1 ->
  SAKernel_Call v op (Scalar_of T x1) X2 OUT = single_result dev T x1 x2 subset op.
Proof.
  intros Hv Hx1. unfold SAKernel_Call, single_result.
  change (CheckDevicesCompatible (device X2) [X2; OUT])
    with (CheckDevicesCompatible dev (map (mkArray dev T) [[x2]; [o]])).
  rewrite CheckDevicesCompatible_same. cbn [bind].
  rewrite !cast_to_same_dtype by reflexivity. cbn [bind dtype OUT].
  rewrite Hv. destruct (subset T); [| reflexivity].
  rewrite static_cast_Scalar_of by exact Hx1. cbn [bind].
  unfold Elementwise1, X2, OUT. rewrite !typed_elems_same. cbn.
  destruct (op T x1 x2); reflexivity.
Qed.

End SingleElement.

(** ** Scalar kernels against the array-array kernels *)

(** C7: for every operator with a scalar variant, every dtype [T] and all
    [x1], [x2] of type [T], the array-scalar kernel on a single-element
    tensor holding [x1] with the scalar [x2] ends as the array-array kernel
    on single-element tensors holding [x1] and [x2] does, and where the
    operator accepts [T] both write the value of the transform at
    [x1], [x2]; likewise for the scalar-array kernels of FloorDivide and
    Divide. *)
Theorem scalar_kernel_matches_array_kernel
    (ops : ArithmeticOps) (bool_is_integral : bool)
    (dev : Device) (T : Dtype) (x1 x2 o : val T) :
  representable T x1 -> representable T x2 ->
  let X1 := mkArray dev T [x1] in
  let X2 := mkArray dev T [x2] in
  let OUT := mkArray dev T [o] in
  let S1 := Scalar_of T x1 in
  let S2 := Scalar_of T x2 in
  let all := fun _ : Dtype => true in
  let integral := is_integral bool_is_integral in
  (NativeAddASKernel_Call ops X1 S2 OUT = AddKernel_Call ops X1 X2 OUT /\
   AddKernel_Call ops X1 X2 OUT = single_result dev T x1 x2 all (Add ops)) /\
  (NativeSubtractASKernel_Call ops X1 S2 OUT = SubtractKernel_Call ops X1 X2 OUT /\
   SubtractKernel_Call ops X1 X2 OUT = single_result dev T x1 x2 is_numeric (Subtract ops)) /\
  (NativeMultiplyASKernel_Call ops X1 S2 OUT = MultiplyKernel_Call ops X1 X2 OUT /\
   MultiplyKernel_Call ops X1 X2 OUT = single_result dev T x1 x2 all (Multiply ops)) /\
  (NativeFloorDivideASKernel_Call X1 S2 OUT = FloorDivideKernel_Call X1 X2 OUT /\
   NativeFloorDivideSAKernel_Call S1 X2 OUT = FloorDivideKernel_Call X1 X2 OUT /\
   FloorDivideKernel_Call X1 X2 OUT = single_result dev T x1 x2 is_numeric FloorDivide) /\
  (NativeDivideASKernel_Call ops X1 S2 OUT = DivideKernel_Call ops X1 X2 OUT /\
   NativeDivideSAKernel_Call ops S1 X2 OUT = DivideKernel_Call ops X1 X2 OUT /\
   DivideKernel_Call ops X1 X2 OUT = single_result dev T x1 x2 all (Divide ops)) /\
  (NativeBitwiseAndASKernel_Call bool_is_integral X1 S2 OUT
   = BitwiseAndKernel_Call bool_is_integral X1 X2 OUT /\
   BitwiseAndKernel_Call bool_is_integral X1 X2 OUT
   = single_result dev T x1 x2 integral BitwiseAnd) /\
  (NativeBitwiseOrASKernel_Call bool_is_integral X1 S2 OUT
   = BitwiseOrKernel_Call bool_is_integral X1 X2 OUT /\
   BitwiseOrKernel_Call bool_is_integral X1 X2 OUT
   = single_result dev T x1 x2 integral BitwiseOr) /\
  (NativeBitwiseXorASKernel_Call bool_is_integral X1 S2 OUT
   = BitwiseXorKernel_Call bool_is_integral X1 X2 OUT /\
   BitwiseXorKernel_Call bool_is_integral X1 X2 OUT
   = single_result dev T x1 x2 integral BitwiseXor).
Proof.
  intros Hx1 Hx2. cbv zeta.
  pose proof VisitDtype_visits as Hall.
  pose proof VisitNumericDtype_visits as Hnum.
  pose proof (VisitIntegralDtype_visits bool_is_integral) as Hint.
  unfold NativeAddASKernel_Call, AddKernel_Call, NativeSubtractASKernel_Call,
    SubtractKernel_Call, NativeMultiplyASKernel_Call, MultiplyKernel_Call,
    NativeFloorDivideASKernel_Call, NativeFloorDivideSAKernel_Call,
    FloorDivideKernel_Call, NativeDivideASKernel_Call, NativeDivideSAKernel_Call,
    DivideKernel_Call, NativeBitwiseAndASKernel_Call, BitwiseAndKernel_Call,
    NativeBitwiseOrASKernel_Call, BitwiseOrKernel_Call,
    NativeBitwiseXorASKernel_Call, BitwiseXorKernel_Call, ELTWISE_BINARY_KERNEL.
  repeat split;
    repeat first
      [ rewrite (ASKernel_single dev T x1 x2 o _ _ _ Hall Hx2)
      | rewrite (ASKernel_single dev T x1 x2 o _ _ _ Hnum Hx2)
      | rewrite (ASKernel_single dev T x1 x2 o _ _ _ Hint Hx2)
      | rewrite (SAKernel_single dev T x1 x2 o _ _ _ Hall Hx1)
      | rewrite (SAKernel_single dev T x1 x2 o _ _ _ Hnum Hx1)
      | rewrite (ELTWISE_single dev T x1 x2 o _ _ _ Hall)
      | rewrite (ELTWISE_single dev T x1 x2 o _ _ _ Hnum)
      | rewrite (ELTWISE_single dev T x1 x2 o _ _ _ Hint) ];
    reflexivity.
Qed.

Lemma scalar_kernel_matches_array_kernel_witness :
  representable kInt32 (-7) /\ representable kInt32 2 /\
  NativeFloorDivideASKernel_Call
    (mkArray 0%nat kInt32 [-7]) (Scalar_of kInt32 2) (mkArray 0%nat kInt32 [0])
  = FloorDivideKernel_Call
      (mkArray 0%nat kInt32 [-7]) (mkArray 0%nat kInt32 [2]) (mkArray 0%nat kInt32 [0]) /\
  FloorDivideKernel_Call
    (mkArray 0%nat kInt32 [-7]) (mkArray 0%nat kInt32 [2]) (mkArray 0%nat kInt32 [0])
  = Ok (mkArray 0%nat kInt32 [-4]).
Proof.
  assert (H1 : representable kInt32 (-7)) by (cbn; int_range).
  assert (H2 : representable kInt32 2) by (cbn; int_range).
  split; [exact H1 |]. split; [exact H2 |].
  destruct (scalar_kernel_matches_array_kernel native_ops true 0%nat kInt32 (-7) 2 0 H1 H2)
    as (_ & _ & _ & (Has & _ & Haa) & _).
  split; [exact Has | exact Haa].
Defined.

(** ** End-to-end scenarios *)

(** C8: the FloorDivide array-scalar kernel on the [int32] tensor
    [[7, -7, 7, -7]] with scalar [2] and an [int32] output writes
    [[3, -4, 3, -4]]; on the [uint8] tensor [[5]] with scalar [0] and a
    [uint8] output it writes [[0]]. *)
Theorem FloorDivideAS_scenarios (dev : Device) (o1 o2 o3 o4 o5 : Z) :
  NativeFloorDivideASKernel_Call
    (mkArray dev kInt32 [7; -7; 7; -7]) (VInt 2) (mkArray dev kInt32 [o1; o2; o3; o4])
  = Ok (mkArray dev kInt32 [3; -4; 3; -4]) /\
  NativeFloorDivideASKernel_Call
    (mkArray dev kUInt8 [5]) (VInt 0) (mkArray dev kUInt8 [o5])
  = Ok (mkArray dev kUInt8 [0]).
Proof.
  unfold NativeFloorDivideASKernel_Call, ASKernel_Call, CheckDevicesCompatible.
  cbn [forallb device]. rewrite !Nat.eqb_refl. split; reflexivity.
Qed.

(** ** Dispatch outside and inside a visitor's subset *)

Lemma mapM_total {A B : Type} (f : A -> outcome B) (l : list A) :
  (forall a, exists b, f a = Ok b) -> exists bs, mapM f l = Ok bs.
Proof.
  intros Hf. induction l as [| a l [bs IH]]; [now exists [] |].
  destruct (Hf a) as [b Hb]. exists (b :: bs). cbn [mapM]. now rewrite Hb, IH.
Qed.

(** Conversion to [bool] or to a floating type is defined on every value. *)
Lemma static_cast_total (T : Dtype) (v : Value) :
  is_int T = false -> exists r, static_cast T v = Ok r.
Proof. destruct T; cbn; intros H; try discriminate; eauto. Qed.

Lemma cast_to_dtype_total (out x : Array) :
  is_int (dtype out) = false -> exists x', cast_to_dtype_of out x = Ok x'.
Proof.
  intros H. unfold cast_to_dtype_of.
  destruct (Dtype_eq_dec (dtype x) (dtype out)); [now exists x |].
  unfold AsType.
  destruct (mapM_total (fun v => static_cast (dtype out) (inject (dtype x) v)) (elems x))
    as [es Hes].
  - intros a. now apply static_cast_total.
  - rewrite Hes. cbn [bind]. eauto.
Qed.

Lemma CheckDevicesCompatible_rejection {A : Type} (dev : Device) (arrays : list Array)
    (k : outcome A) :
  (CheckDevicesCompatible dev arrays ;;; k)
  = if forallb (fun a => Nat.eqb (device a) dev) arrays then k else Fail DeviceMismatch.
Proof. unfold CheckDevicesCompatible. now destruct (forallb _ _). Qed.

Section Rejection.

Variables (v : visitor) (subset : Dtype -> bool) (op : binop).
Hypothesis Hv : visits v subset.

Variable out : Array.
Hypothesis Hout : subset (dtype out) = false.
Hypothesis Hcast : is_int (dtype out) = false.

Lemma ELTWISE_rejects (x1 x2 : Array) :
  ELTWISE_DTYPE_BINARY_KERNEL op v x1 x2 out
  = Fail (rejection (device x1) [x1; x2; out]).
Proof.
  unfold ELTWISE_DTYPE_BINARY_KERNEL, rejection.
  rewrite CheckDevicesCompatible_rejection.
  destruct (forallb _ _); [| reflexivity].
  destruct (cast_to_dtype_total out x1 Hcast) as [x1' ->].
  destruct (cast_to_dtype_total out x2 Hcast) as [x2' ->].
  cbn [bind]. now rewrite Hv, Hout.
Qed.

Lemma ASKernel_rejects (x1 : Array) (x2 : Scalar) :
  ASKernel_Call v op x1 x2 out = Fail (rejection (device x1) [x1; out]).
Proof.
  unfold ASKernel_Call, rejection.
  rewrite CheckDevicesCompatible_rejection.
  destruct (forallb _ _); [| reflexivity].
  destruct (cast_to_dtype_total out x1 Hcast) as [x1' ->].
  cbn [bind]. now rewrite Hv, Hout.
Qed.

Lemma SAKernel_rejects (x1 : Scalar) (x2 : Array) :
  SAKernel_Call v op x1 x2 out = Fail (rejection (device x2) [x2; out]).
Proof.
  unfold SAKernel_Call, rejection.
  rewrite CheckDevicesCompatible_rejection.
  destruct (forallb _ _); [| reflexivity].
  destruct (cast_to_dtype_total out x2 Hcast) as [x2' ->].
  cbn [bind]. now rewrite Hv, Hout.
Qed.

End Rejection.

Lemma check_same_length_eq {A B : Type} (l1 : list A) (l2 : list B) :
  length l1 = length l2 -> check_same_length l1 l2 = Ok tt.
Proof. intros H. unfold check_same_length. now rewrite H, Nat.eqb_refl. Qed.

Section Acceptance.

Variables (v : visitor) (subset : Dtype -> bool) (op : binop).
Hypothesis Hv : visits v subset.

Variables (dev : Device) (T : Dtype).
Hypothesis HT : subset T = true.

Variables (xs1 xs2 os : list (val T)).
Hypothesis Hlen1 : length xs1 = length os.
Hypothesis Hlen2 : length xs2 = length os.

Lemma ELTWISE_runs :
  ELTWISE_DTYPE_BINARY_KERNEL op v (mkArray dev T xs1) (mkArray dev T xs2) (mkArray dev T os)
  = ys <- mapM2 (op T) xs1 xs2 ;; Ok (mkArray dev T ys).
Proof.
  unfold ELTWISE_DTYPE_BINARY_KERNEL.
  change (CheckDevicesCompatible _ _)
    with (CheckDevicesCompatible dev (map (mkArray dev T) [xs1; xs2; os])).
  rewrite CheckDevicesCompatible_same. cbn [bind].
  rewrite !cast_to_same_dtype by reflexivity. cbn [bind dtype].
  rewrite Hv, HT. unfold Elementwise2. rewrite !typed_elems_same. cbn [bind].
  now rewrite !check_same_length_eq by assumption.
Qed.

Lemma ASKernel_runs (s : Scalar) :
  ASKernel_Call v op (mkArray dev T xs1) s (mkArray dev T os)
  = x2 <- static_cast T s ;;
    ys <- mapM (fun x1 => op T x1 x2) xs1 ;; Ok (mkArray dev T ys).
Proof.
  unfold ASKernel_Call.
  change (CheckDevicesCompatible _ _)
    with (CheckDevicesCompatible dev (map (mkArray dev T) [xs1; os])).
  rewrite CheckDevicesCompatible_same. cbn [bind].
  rewrite !cast_to_same_dtype by reflexivity. cbn [bind dtype].
  rewrite Hv, HT. destruct (static_cast T s); [| reflexivity]. cbn [bind].
  unfold Elementwise1. rewrite !typed_elems_same. cbn [bind].
  now rewrite !check_same_length_eq by assumption.
Qed.

Lemma SAKernel_runs (s : Scalar) :
  SAKernel_Call v op s (mkArray dev T xs2) (mkArray dev T os)
  = x1 <- static_cast T s ;;
    ys <- mapM (fun x2 => op T x1 x2) xs2 ;; Ok (mkArray dev T ys).
Proof.
  unfold SAKernel_Call.
  change (CheckDevicesCompatible _ _)
    with (CheckDevicesCompatible dev (map (mkArray dev T) [xs2; os])).
  rewrite CheckDevicesCompatible_same. cbn [bind].
  rewrite !cast_to_same_dtype by reflexivity. cbn [bind dtype].
  rewrite Hv, HT. destruct (static_cast T s); [| reflexivity]. cbn [bind].
  unfold Elementwise1. rewrite !typed_elems_same. cbn [bind].
  now rewrite !check_same_length_eq by assumption.
Qed.

End Acceptance.

(** ** The subsets the kernels dispatch over *)

(** C3, as amended: the Subtract and FloorDivide kernels (array-array and
    scalar variants) dispatch over numeric element types only, so a call
    with a non-numeric output dtype fails, as a contract violation; the
    Add, Multiply and Divide kernels (array-array and scalar variants) go
    through the full visitor and run their transform at every dtype. *)
Theorem arithmetic_kernels_dispatch (ops : ArithmeticOps) :
  (forall (x1 x2 out : Array) (s : Scalar),
     is_numeric (dtype out) = false ->
     SubtractKernel_Call ops x1 x2 out = Fail (rejection (device x1) [x1; x2; out]) /\
     NativeSubtractASKernel_Call ops x1 s out = Fail (rejection (device x1) [x1; out]) /\
     FloorDivideKernel_Call x1 x2 out = Fail (rejection (device x1) [x1; x2; out]) /\
     NativeFloorDivideASKernel_Call x1 s out = Fail (rejection (device x1) [x1; out]) /\
     NativeFloorDivideSAKernel_Call s x2 out = Fail (rejection (device x2) [x2; out])) /\
  (forall (dev : Device) (T : Dtype) (xs1 xs2 os : list (val T)) (s : Scalar),
     length xs1 = length os -> length xs2 = length os ->
     let X1 := mkArray dev T xs1 in
     let X2 := mkArray dev T xs2 in
     let OUT := mkArray dev T os in
     AddKernel_Call ops X1 X2 OUT
     = (ys <- mapM2 (Add ops T) xs1 xs2 ;; Ok (mkArray dev T ys)) /\
     MultiplyKernel_Call ops X1 X2 OUT
     = (ys <- mapM2 (Multiply ops T) xs1 xs2 ;; Ok (mkArray dev T ys)) /\
     DivideKernel_Call ops X1 X2 OUT
     = (ys <- mapM2 (Divide ops T) xs1 xs2 ;; Ok (mkArray dev T ys)) /\
     NativeAddASKernel_Call ops X1 s OUT
     = (x2 <- static_cast T s ;;
        ys <- mapM (fun x1 => Add ops T x1 x2) xs1 ;; Ok (mkArray dev T ys)) /\
     NativeMultiplyASKernel_Call ops X1 s OUT
     = (x2 <- static_cast T s ;;
        ys <- mapM (fun x1 => Multiply ops T x1 x2) xs1 ;; Ok (mkArray dev T ys)) /\
     NativeDivideASKernel_Call ops X1 s OUT
     = (x2 <- static_cast T s ;;
        ys <- mapM (fun x1 => Divide ops T x1 x2) xs1 ;; Ok (mkArray dev T ys)) /\
     NativeDivideSAKernel_Call ops s X2 OUT
     = (x1 <- static_cast T s ;;
        ys <- mapM (fun x2 => Divide ops T x1 x2) xs2 ;; Ok (mkArray dev T ys))).
Proof.
  split.
  - intros x1 x2 out s Hout.
    assert (Hint : is_int (dtype out) = false) by (destruct (dtype out); easy).
    repeat split;
      first [ apply (ELTWISE_rejects _ _ _ VisitNumericDtype_visits)
            | apply (ASKernel_rejects _ _ _ VisitNumericDtype_visits)
            | apply (SAKernel_rejects _ _ _ VisitNumericDtype_visits) ];
      assumption.
  - intros dev T xs1 xs2 os s H1 H2. cbv zeta.
    repeat split;
      first [ apply (ELTWISE_runs _ _ _ VisitDtype_visits)
            | apply (ASKernel_runs _ _ _ VisitDtype_visits)
            | apply (SAKernel_runs _ _ _ VisitDtype_visits) ];
      solve [reflexivity | assumption].
Qed.

Lemma arithmetic_kernels_dispatch_witness :
  is_numeric kBool = false /\
  SubtractKernel_Call native_ops
    (mkArray 0%nat kBool [true]) (mkArray 0%nat kBool [false]) (mkArray 0%nat kBool [false])
  = Fail DtypeNotVisited /\
  AddKernel_Call native_ops
    (mkArray 0%nat kBool [true]) (mkArray 0%nat kBool [false]) (mkArray 0%nat kBool [false])
  = Ok (mkArray 0%nat kBool [true]).
Proof.
  split; [reflexivity |]. split.
  - apply (proj1 (arithmetic_kernels_dispatch native_ops)
             (mkArray 0%nat kBool [true]) (mkArray 0%nat kBool [false])
             (mkArray 0%nat kBool [false]) (VBool false)).
    reflexivity.
  - apply (proj2 (arithmetic_kernels_dispatch native_ops) 0%nat kBool
             [true] [false] [false] (VBool false)); reflexivity.
Defined.

(** C3, as stated, fails for Divide: its kernels are registered with the
    full visitor, and a call with the non-numeric output dtype [bool] runs
    the transform instead of failing. *)
Lemma arithmetic_kernels_dispatch_counterexample :
  is_numeric kBool = false /\
  DivideKernel_Call native_ops
    (mkArray 0%nat kBool [true]) (mkArray 0%nat kBool [true]) (mkArray 0%nat kBool [false])
  = Ok (mkArray 0%nat kBool [true]) /\
  NativeDivideASKernel_Call native_ops
    (mkArray 0%nat kBool [true]) (VBool true) (mkArray 0%nat kBool [false])
  = Ok (mkArray 0%nat kBool [true]) /\
  NativeDivideSAKernel_Call native_ops
    (VBool true) (mkArray 0%nat kBool [true]) (mkArray 0%nat kBool [false])
  = Ok (mkArray 0%nat kBool [true]) /\
  ~ (forall (ops : ArithmeticOps) (x1 x2 out : Array),
       is_numeric (dtype out) = false ->
       exists e, DivideKernel_Call ops x1 x2 out = Fail e).
Proof.
  repeat split.
  intros H.
  destruct (H native_ops (mkArray 0%nat kBool []) (mkArray 0%nat kBool [])
              (mkArray 0%nat kBool []) eq_refl) as [e He].
  discriminate He.
Qed.

(** C5: the bitwise kernels (array-array and array-scalar) dispatch over
    integral element types only: a call with a floating-point output dtype
    fails, as a contract violation, and computes nothing. *)
Theorem bitwise_kernels_reject_floating
    (bool_is_integral : bool) (x1 x2 out : Array) (s : Scalar) :
  is_floating (dtype out) = true ->
  BitwiseAndKernel_Call bool_is_integral x1 x2 out
  = Fail (rejection (device x1) [x1; x2; out]) /\
  NativeBitwiseAndASKernel_Call bool_is_integral x1 s out
  = Fail (rejection (device x1) [x1; out]) /\
  BitwiseOrKernel_Call bool_is_integral x1 x2 out
  = Fail (rejection (device x1) [x1; x2; out]) /\
  NativeBitwiseOrASKernel_Call bool_is_integral x1 s out
  = Fail (rejection (device x1) [x1; out]) /\
  BitwiseXorKernel_Call bool_is_integral x1 x2 out
  = Fail (rejection (device x1) [x1; x2; out]) /\
  NativeBitwiseXorASKernel_Call bool_is_integral x1 s out
  = Fail (rejection (device x1) [x1; out]).
Proof.
  intros Hout.
  assert (Hint : is_int (dtype out) = false) by (destruct (dtype out); easy).
  assert (Hsub : is_integral bool_is_integral (dtype out) = false)
    by (destruct (dtype out); easy).
  pose proof (VisitIntegralDtype_visits bool_is_integral) as Hv.
  repeat split;
    first [ apply (ELTWISE_rejects _ _ _ Hv)
          | apply (ASKernel_rejects _ _ _ Hv) ];
    assumption.
Qed.

Lemma bitwise_kernels_reject_floating_witness :
  is_floating kFloat32 = true /\
  BitwiseAndKernel_Call true
    (mkArray 0%nat kInt32 [6]) (mkArray 0%nat kInt32 [3]) (mkArray 0%nat kFloat32 [Float.zero])
  = Fail DtypeNotVisited.
Proof.
  split; [reflexivity |].
  apply (bitwise_kernels_reject_floating true
           (mkArray 0%nat kInt32 [6]) (mkArray 0%nat kInt32 [3])
           (mkArray 0%nat kFloat32 [Float.zero]) (VInt 0)).
  reflexivity.
Defined.

(** * Further properties *)

(** ** More on the integer overloads *)

(** X1: on [uint8], for every [x] and every [y <> 0], [FloorDivide(x, y)]
    is the floor of the real quotient, and the result fits the type. *)
Theorem FloorDivide_uint8_is_floor (x y : Z) :
  Int.in_urange 8 x -> Int.in_urange 8 y -> y <> 0 ->
  FloorDivide_uint8 x y = Ok (floor_quotient x y) /\
  Int.in_urange 8 (floor_quotient x y).
Proof.
  unfold Int.in_urange. intros Hx Hy Hy0.
  rewrite floor_quotient_div by exact Hy0.
  assert (Hq : 0 <= x / y <= x).
  { split; [apply Z.div_pos; lia |]. apply Z.div_le_upper_bound; nia. }
  split; [| lia].
  unfold FloorDivide_uint8. destruct (y =? 0) eqn:E; [lia |].
  rewrite Z.quot_div_nonneg by lia.
  f_equal. apply uwrap_in_range. unfold Int.in_urange. lia.
Qed.

Lemma FloorDivide_uint8_is_floor_witness :
  FloorDivide_uint8 255 2 = Ok (floor_quotient 255 2).
Proof.
  apply (FloorDivide_uint8_is_floor 255 2); int_range.
Defined.

(** X2: on operands of the type, the [int32] and [int64] overloads are
    undefined exactly at the lowest value divided by [-1] (where
    [std::div] overflows), and return a value everywhere else, the zero
    divisor included. *)
Theorem FloorDivide_wide_undefined_iff (x y : Z) :
  (Int.in_range 32 x -> Int.in_range 32 y ->
   (FloorDivide_int32 x y = Fail UndefinedBehavior <-> x = Int.min_value 32 /\ y = -1) /\
   (~ (x = Int.min_value 32 /\ y = -1) -> exists q, FloorDivide_int32 x y = Ok q)) /\
  (Int.in_range 64 x -> Int.in_range 64 y ->
   (FloorDivide_int64 x y = Fail UndefinedBehavior <-> x = Int.min_value 64 /\ y = -1) /\
   (~ (x = Int.min_value 64 /\ y = -1) -> exists q, FloorDivide_int64 x y = Ok q)).
Proof.
  assert (H : forall w, 0 < w -> Int.in_range w x -> Int.in_range w y ->
     (FloorDivide_int w x y = Fail UndefinedBehavior <-> x = Int.min_value w /\ y = -1) /\
     (~ (x = Int.min_value w /\ y = -1) -> exists q, FloorDivide_int w x y = Ok q)).
  { intros w Hw Hx Hy.
    assert (Hdef : ~ (x = Int.min_value w /\ y = -1) -> exists q, FloorDivide_int w x y = Ok q).
    { intros Hmin. destruct (Z.eq_dec y 0) as [-> | Hy0].
      - now exists 0.
      - exists (x / y). now apply FloorDivide_int_div. }
    split; [| exact Hdef]. split.
    - intros Hf. destruct (Z.eq_dec x (Int.min_value w)) as [Hx' | Hx'];
        destruct (Z.eq_dec y (-1)) as [Hy' | Hy']; try (split; assumption);
        (destruct Hdef as [q Hq]; [lia | rewrite Hq in Hf; discriminate]).
    - intros [-> ->]. apply FloorDivide_int_lowest. }
  split; apply H; lia.
Qed.

Lemma FloorDivide_wide_undefined_iff_witness :
  FloorDivide_int32 (-2147483648) (-1) = Fail UndefinedBehavior /\
  exists q, FloorDivide_int64 (-2147483648) (-1) = Ok q.
Proof.
  destruct (FloorDivide_wide_undefined_iff (-2147483648) (-1)) as [H32 H64].
  split.
  - apply H32; int_range.
  - apply H64; int_range.
Defined.

(** X4: against the truncating division of C++: for [y <> 0], away from
    the overflow case, [FloorDivide(x, y)] is the truncated quotient when
    [y] divides [x] or the operands have the same sign, and one less
    otherwise. *)
Theorem FloorDivide_against_truncation (x y : Z) :
  y <> 0 ->
  let q := if (Z.rem x y =? 0) || (Z.sgn x =? Z.sgn y) then Z.quot x y else Z.quot x y - 1 in
  (Int.in_range 32 x -> Int.in_range 32 y -> ~ (x = Int.min_value 32 /\ y = -1) ->
   FloorDivide_int32 x y = Ok q) /\
  (Int.in_range 64 x -> Int.in_range 64 y -> ~ (x = Int.min_value 64 /\ y = -1) ->
   FloorDivide_int64 x y = Ok q).
Proof.
  intros Hy0 q.
  assert (Hq : q = x / y).
  { unfold q. rewrite <- (floor_divide_rule_div x y Hy0). unfold floor_divide_rule.
    destruct (y =? 0) eqn:E; [lia |].
    destruct (Z.rem x y =? 0) eqn:Er; [reflexivity |].
    rewrite (Z.rem_sign_nz x y) by lia. cbn [negb orb andb].
    now destruct (Z.sgn x =? Z.sgn y). }
  rewrite Hq. split; intros; apply FloorDivide_int_div; try assumption; lia.
Qed.

Lemma FloorDivide_against_truncation_witness :
  FloorDivide_int32 (-7) 2 = Ok (Z.quot (-7) 2 - 1) /\
  FloorDivide_int64 (-8) (-2) = Ok (Z.quot (-8) (-2)).
Proof.
  split.
  - apply (proj1 (FloorDivide_against_truncation (-7) 2 ltac:(lia))); int_range.
  - apply (proj2 (FloorDivide_against_truncation (-8) (-2) ltac:(lia))); int_range.
Defined.

(** X5: the remainder that goes with the quotient has the sign of the
    divisor: for [q = FloorDivide(x, y)], [x - y * q] lies in [[0, y)] for
    a positive [y] and in [(y, 0]] for a negative one. *)
Theorem FloorDivide_remainder_sign (x y : Z) :
  y <> 0 ->
  (Int.in_range 8 x -> Int.in_range 8 y -> ~ (x = Int.min_value 8 /\ y = -1) ->
   exists q, FloorDivide_int8 x y = Ok q /\
     (0 < y -> 0 <= x - y * q < y) /\ (y < 0 -> y < x - y * q <= 0)) /\
  (Int.in_range 16 x -> Int.in_range 16 y -> ~ (x = Int.min_value 16 /\ y = -1) ->
   exists q, FloorDivide_int16 x y = Ok q /\
     (0 < y -> 0 <= x - y * q < y) /\ (y < 0 -> y < x - y * q <= 0)) /\
  (Int.in_range 32 x -> Int.in_range 32 y -> ~ (x = Int.min_value 32 /\ y = -1) ->
   exists q, FloorDivide_int32 x y = Ok q /\
     (0 < y -> 0 <= x - y * q < y) /\ (y < 0 -> y < x - y * q <= 0)) /\
  (Int.in_range 64 x -> Int.in_range 64 y -> ~ (x = Int.min_value 64 /\ y = -1) ->
   exists q, FloorDivide_int64 x y = Ok q /\
     (0 < y -> 0 <= x - y * q < y) /\ (y < 0 -> y < x - y * q <= 0)).
Proof.
  intros Hy0.
  assert (Hr : (0 < y -> 0 <= x - y * (x / y) < y) /\ (y < 0 -> y < x - y * (x / y) <= 0)).
  { pose proof (Z.div_mod x y Hy0). split; intros Hs.
    - pose proof (Z.mod_pos_bound x y Hs). lia.
    - pose proof (Z.mod_neg_bound x y Hs). lia. }
  repeat split; intros Hx Hy Hmin; exists (x / y); (split; [| exact Hr]).
  - unfold FloorDivide_int8.
    rewrite FloorDivide_int32_narrow_operands by (try apply in_range_8_16; assumption).
    cbn [bind]. f_equal. apply wrap_in_range; [lia |].
    apply div_in_range; try assumption; lia.
  - unfold FloorDivide_int16.
    rewrite FloorDivide_int32_narrow_operands by assumption.
    cbn [bind]. f_equal. apply wrap_in_range; [lia |].
    apply div_in_range; try assumption; lia.
  - apply FloorDivide_int_div; try assumption; lia.
  - apply FloorDivide_int_div; try assumption; lia.
Qed.

Lemma FloorDivide_remainder_sign_witness :
  exists q, FloorDivide_int8 (-7) 2 = Ok q /\
    (0 < 2 -> 0 <= -7 - 2 * q < 2) /\ (2 < 0 -> 2 < -7 - 2 * q <= 0).
Proof.
  destruct (FloorDivide_remainder_sign (-7) 2) as (H8 & _); [lia |].
  apply H8; int_range.
Defined.





(** ** Bitwise transforms *)

Lemma in_range_shiftr (w a : Z) :
  0 < w -> (Int.in_range w a <-> Z.shiftr a (w - 1) = 0 \/ Z.shiftr a (w - 1) = -1).
Proof.
  intros Hw. rewrite Z.shiftr_div_pow2 by lia.
  unfold Int.in_range, Int.min_value, Int.max_value.
  assert (Hp : 0 < 2 ^ (w - 1)) by (apply Z.pow_pos_nonneg; lia).
  pose proof (Z.div_mod a (2 ^ (w - 1)) ltac:(lia)) as Hdm.
  pose proof (Z.mod_pos_bound a (2 ^ (w - 1)) Hp) as Hb.
  split.
  - intros Ha. nia.
  - intros [H | H]; rewrite H in Hdm; lia.
Qed.

Lemma in_urange_shiftr (w a : Z) :
  0 <= w -> (Int.in_urange w a <-> Z.shiftr a w = 0).
Proof.
  intros Hw. rewrite Z.shiftr_div_pow2 by lia. unfold Int.in_urange.
  assert (Hp : 0 < 2 ^ w) by (apply Z.pow_pos_nonneg; lia).
  rewrite Z.div_small_iff by lia. lia.
Qed.

Lemma bitwise_in_range (w a b : Z) :
  0 < w -> Int.in_range w a -> Int.in_range w b ->
  Int.in_range w (Z.land a b) /\ Int.in_range w (Z.lor a b) /\ Int.in_range w (Z.lxor a b).
Proof.
  intros Hw Ha Hb.
  apply (in_range_shiftr w a Hw) in Ha. apply (in_range_shiftr w b Hw) in Hb.
  rewrite !(in_range_shiftr w) by exact Hw.
  rewrite Z.shiftr_land, Z.shiftr_lor, Z.shiftr_lxor.
  destruct Ha as [-> | ->], Hb as [-> | ->]; cbn; auto.
Qed.

Lemma bitwise_in_urange (w a b : Z) :
  0 <= w -> Int.in_urange w a -> Int.in_urange w b ->
  Int.in_urange w (Z.land a b) /\ Int.in_urange w (Z.lor a b) /\ Int.in_urange w (Z.lxor a b).
Proof.
  intros Hw Ha Hb.
  apply (in_urange_shiftr w a Hw) in Ha. apply (in_urange_shiftr w b Hw) in Hb.
  rewrite !(in_urange_shiftr w) by exact Hw.
  rewrite Z.shiftr_land, Z.shiftr_lor, Z.shiftr_lxor, Ha, Hb. cbn. auto.
Qed.

(** X13: on [bool] and on the integer types, [&], [|] and [^] of two
    values of the type are defined and are values of the type again. *)
Theorem bitwise_result_representable (T : Dtype) (x y : val T) :
  is_floating T = false -> representable T x -> representable T y ->
  exists ra ro rx,
    BitwiseAnd T x y = Ok ra /\ BitwiseOr T x y = Ok ro /\ BitwiseXor T x y = Ok rx /\
    representable T ra /\ representable T ro /\ representable T rx.
Proof.
  destruct T; cbn [is_floating representable]; intros HT Hx Hy; try discriminate;
    unfold BitwiseAnd, BitwiseOr, BitwiseXor; cbn [bitwise];
    do 3 eexists; (split; [reflexivity |]); (split; [reflexivity |]);
    (split; [reflexivity |]); cbn [representable]; auto.
  - apply bitwise_in_range; [lia | assumption ..].
  - apply bitwise_in_range; [lia | assumption ..].
  - apply bitwise_in_range; [lia | assumption ..].
  - apply bitwise_in_range; [lia | assumption ..].
  - apply bitwise_in_urange; [lia | assumption ..].
Qed.

Lemma bitwise_result_representable_witness :
  exists ra ro rx,
    BitwiseAnd kInt8 (-128) 127 = Ok ra /\ BitwiseOr kInt8 (-128) 127 = Ok ro /\
    BitwiseXor kInt8 (-128) 127 = Ok rx /\
    representable kInt8 ra /\ representable kInt8 ro /\ representable kInt8 rx.
Proof.
  apply (bitwise_result_representable kInt8 (-128) 127); try reflexivity; cbn; int_range.
Defined.

(** ** Special operands of the floating overloads *)

Lemma sub_self_finite (fmt : Float.format) (s : bool) (m : positive) (e : Z) :
  Float.sub fmt (S754_finite s m e) (S754_finite s m e) = S754_zero false.
Proof.
  unfold Float.sub. cbn [SFsub]. rewrite Z.sub_diag. reflexivity.
Qed.

(** X8: a NaN or infinite numerator, or a NaN divisor, gives NaN. *)
Theorem FloorDivide_fp_nan (fmt : Float.format) (x y : spec_float) :
  x = S754_nan \/ (exists s, x = S754_infinity s) \/ y = S754_nan ->
  FloorDivide_fp fmt x y = Float.nan.
Proof.
  intros [-> | [[s ->] | ->]]; unfold FloorDivide_fp.
  - reflexivity.
  - destruct y; reflexivity.
  - destruct x; reflexivity.
Qed.

Lemma FloorDivide_fp_nan_witness :
  FloorDivide_float (S754_infinity false) (Float.of_int Float.binary32 2) = Float.nan.
Proof.
  apply (FloorDivide_fp_nan Float.binary32 (S754_infinity false)).
  right. left. now exists false.
Defined.

(** X6: a zero numerator over a nonzero (finite or infinite) divisor gives
    a zero with the sign of the divisor, whatever the sign of the
    numerator. *)
Theorem FloorDivide_fp_zero_numerator (fmt : Float.format) (s : bool) (y : spec_float) :
  is_negative y || is_positive y = true ->
  FloorDivide_fp fmt (S754_zero s) y = S754_zero (is_negative y).
Proof.
  intros Hy. rewrite FloorDivide_fp_rule.
  destruct y as [sy | sy | | sy my ey]; try discriminate; destruct s, sy; reflexivity.
Qed.

Lemma FloorDivide_fp_zero_numerator_witness :
  FloorDivide_double (S754_zero false) (Float.of_int Float.binary64 (-2)) = S754_zero true.
Proof.
  apply (FloorDivide_fp_zero_numerator Float.binary64 false (Float.of_int Float.binary64 (-2))).
  reflexivity.
Defined.

(** X7: a finite nonzero numerator over an infinite divisor gives [-1]
    when the signs differ and a zero with the sign of the divisor when
    they agree. *)
Theorem FloorDivide_fp_infinite_divisor (sx sy : bool) (m : positive) (e : Z) :
  FloorDivide_float (S754_finite sx m e) (S754_infinity sy)
  = (if xorb sx sy then Float.of_int Float.binary32 (-1) else S754_zero sy) /\
  FloorDivide_double (S754_finite sx m e) (S754_infinity sy)
  = (if xorb sx sy then Float.of_int Float.binary64 (-1) else S754_zero sy).
Proof.
  unfold FloorDivide_float, FloorDivide_double. rewrite !FloorDivide_fp_rule.
  cbn [Float.fmod]. cbv zeta. rewrite !sub_self_finite.
  destruct sx, sy; split; reflexivity.
Qed.

(** ** What every kernel does before and after the transform *)

(** X9: the device check comes first: when the array operand and the
    output are on different devices, every kernel fails with the device
    error, whatever the dtypes, the shapes and the contents. *)
Theorem kernels_check_devices_first
    (v : visitor) (op : binop) (x1 x2 out : Array) (s : Scalar) :
  device x1 <> device out ->
  ELTWISE_DTYPE_BINARY_KERNEL op v x1 x2 out = Fail DeviceMismatch /\
  ASKernel_Call v op x1 s out = Fail DeviceMismatch /\
  SAKernel_Call v op s x1 out = Fail DeviceMismatch.
Proof.
  intros Hdev. apply Nat.eqb_neq in Hdev. rewrite Nat.eqb_sym in Hdev.
  unfold ELTWISE_DTYPE_BINARY_KERNEL, ASKernel_Call, SAKernel_Call.
  rewrite !CheckDevicesCompatible_rejection. cbn [forallb].
  rewrite Hdev, !andb_false_r. repeat split.
Qed.

Lemma kernels_check_devices_first_witness :
  NativeFloorDivideASKernel_Call
    (mkArray 0%nat kInt32 [7]) (VInt 2) (mkArray 1%nat kInt32 [0])
  = Fail DeviceMismatch.
Proof.
  apply (kernels_check_devices_first VisitNumericDtype FloorDivide
           (mkArray 0%nat kInt32 [7]) (mkArray 0%nat kInt32 [7])
           (mkArray 1%nat kInt32 [0]) (VInt 2)).
  discriminate.
Defined.


Lemma mapM_length {A B : Type} (f : A -> outcome B) (l : list A) (l' : list B) :
  mapM f l = Ok l' -> length l' = length l.
Proof.
  revert l'. induction l as [| a l IH]; intros l' H; cbn [mapM bind] in H.
  - now injection H as <-.
  - destruct (f a); [| discriminate]. cbn [bind] in H.
    destruct (mapM f l) as [bs |]; [| discriminate]. cbn [bind] in H.
    injection H as <-. cbn. f_equal. now apply IH.
Qed.





Lemma bind_ok {A B : Type} (m : outcome A) (k : A -> outcome B) (b : B) :
  bind m k = Ok b -> exists a, m = Ok a /\ k a = Ok b.
Proof. destruct m; [eauto | discriminate]. Qed.



Lemma AsType_frame (a a' : Array) (T : Dtype) :
  AsType a T = Ok a' -> device a' = device a /\ dtype a' = T.
Proof.
  unfold AsType. intros H. apply bind_ok in H as (es & _ & H).
  injection H as <-. split; reflexivity.
Qed.

(** X11: an input of another dtype than the output is replaced by its
    [AsType] copy: the call ends as the call on the copy does. *)
Theorem kernels_run_on_the_cast_input
    (v : visitor) (op : binop) (x x' y out : Array) (s : Scalar) :
  dtype x <> dtype out ->
  dtype y = dtype out ->
  AsType x (dtype out) = Ok x' ->
  ASKernel_Call v op x s out = ASKernel_Call v op x' s out /\
  SAKernel_Call v op s x out = SAKernel_Call v op s x' out /\
  ELTWISE_DTYPE_BINARY_KERNEL op v x y out = ELTWISE_DTYPE_BINARY_KERNEL op v x' y out /\
  ELTWISE_DTYPE_BINARY_KERNEL op v y x out = ELTWISE_DTYPE_BINARY_KERNEL op v y x' out.
Proof.
  intros Hne Hy Hx. pose proof (AsType_frame _ _ _ Hx) as [Hdev Hdt].
  assert (Hc : cast_to_dtype_of out x = Ok x').
  { unfold cast_to_dtype_of. destruct (Dtype_eq_dec (dtype x) (dtype out)); [contradiction |].
    exact Hx. }
  assert (Hc' : cast_to_dtype_of out x' = Ok x') by (now apply cast_to_same_dtype).
  unfold ASKernel_Call, SAKernel_Call, ELTWISE_DTYPE_BINARY_KERNEL.
  rewrite !CheckDevicesCompatible_rejection. cbn [forallb].
  rewrite Hc, Hc', !Hdev. repeat split.
Qed.

Lemma kernels_run_on_the_cast_input_witness :
  AsType (mkArray 0%nat kInt8 [7; -7]) kInt32 = Ok (mkArray 0%nat kInt32 [7; -7]) /\
  NativeFloorDivideASKernel_Call
    (mkArray 0%nat kInt8 [7; -7]) (VInt 2) (mkArray 0%nat kInt32 [0; 0])
  = NativeFloorDivideASKernel_Call
      (mkArray 0%nat kInt32 [7; -7]) (VInt 2) (mkArray 0%nat kInt32 [0; 0]).
Proof.
  split; [reflexivity |].
  apply (kernels_run_on_the_cast_input VisitNumericDtype FloorDivide
           (mkArray 0%nat kInt8 [7; -7]) (mkArray 0%nat kInt32 [7; -7])
           (mkArray 0%nat kInt32 [1; 1]) (mkArray 0%nat kInt32 [0; 0]) (VInt 2));
    [discriminate | reflexivity | reflexivity].
Defined.

Lemma mapM_ok {A B : Type} (f : A -> outcome B) (g : A -> B) (l : list A) :
  (forall a, In a l -> f a = Ok (g a)) -> mapM f l = Ok (map g l).
Proof.
  induction l as [| a l IH]; intros H; [reflexivity |].
  cbn [mapM map]. rewrite (H a (or_introl eq_refl)). cbn [bind].
  rewrite IH by (intros b Hb; apply H; now right). reflexivity.
Qed.

Lemma mapM2_ok {A B C : Type} (f : A -> B -> outcome C) (g : A -> B -> C)
    (l1 : list A) (l2 : list B) :
  length l1 = length l2 ->
  (forall a b, In (a, b) (combine l1 l2) -> f a b = Ok (g a b)) ->
  mapM2 f l1 l2 = Ok (map (fun p => g (fst p) (snd p)) (combine l1 l2)).
Proof.
  revert l2. induction l1 as [| a l1 IH]; intros [| b l2] Hl H; try discriminate.
  - reflexivity.
  - cbn [mapM2 combine map fst snd]. rewrite (H a b (or_introl eq_refl)). cbn [bind].
    rewrite (IH l2) by (try (cbn in Hl; lia); intros a' b' Hin; apply H; now right).
    reflexivity.
Qed.

(** The zero guard, at the type the visitor selects. *)
Lemma FloorDivide_by_zero_at (T : Dtype) (a z : val T) :
  is_int T = true -> inject T z = VInt 0 -> FloorDivide T a z = Ok z.
Proof.
  destruct T; cbn [is_int inject]; intros HT Hz; try discriminate;
    injection Hz as ->; reflexivity.
Qed.

(** X12: the zero guard sees the scalar after its conversion to the
    dtype of the output: on an integer dtype, a scalar that converts to
    zero (such as [256] for [int8]) makes FloorDivideAS write zero to
    every element. *)
Theorem FloorDivideAS_scalar_narrowed_to_zero
    (dev : Device) (T : Dtype) (xs os : list (val T)) (s : Scalar) (z : val T) :
  is_int T = true -> length xs = length os ->
  static_cast T s = Ok z -> inject T z = VInt 0 ->
  NativeFloorDivideASKernel_Call (mkArray dev T xs) s (mkArray dev T os)
  = Ok (mkArray dev T (map (fun _ => z) xs)).
Proof.
  intros HT Hl Hs Hz. unfold NativeFloorDivideASKernel_Call.
  rewrite (ASKernel_runs _ _ _ VisitNumericDtype_visits dev T) by
    (try assumption; destruct T; easy).
  rewrite Hs. cbn [bind].
  rewrite (mapM_ok _ (fun _ => z)); [reflexivity |].
  intros a _. now apply FloorDivide_by_zero_at.
Qed.

Lemma FloorDivideAS_scalar_narrowed_to_zero_witness :
  NativeFloorDivideASKernel_Call
    (mkArray 0%nat kInt8 [7; -7; 100]) (VInt 256) (mkArray 0%nat kInt8 [1; 1; 1])
  = Ok (mkArray 0%nat kInt8 [0; 0; 0]).
Proof.
  apply (FloorDivideAS_scalar_narrowed_to_zero 0%nat kInt8 [7; -7; 100] [1; 1; 1]
           (VInt 256) 0); reflexivity.
Defined.

Lemma bitwise_xor_involutive (T : Dtype) (a c : val T) :
  is_floating T = false ->
  exists b, BitwiseXor T a c = Ok b /\ BitwiseXor T b c = Ok a.
Proof.
  destruct T; cbn [is_floating]; intros HT; try discriminate;
    unfold BitwiseXor; cbn [bitwise]; eexists; (split; [reflexivity |]); f_equal.
  - now destruct a, c.
  - now rewrite Z.lxor_assoc, Z.lxor_nilpotent, Z.lxor_0_r.
  - now rewrite Z.lxor_assoc, Z.lxor_nilpotent, Z.lxor_0_r.
  - now rewrite Z.lxor_assoc, Z.lxor_nilpotent, Z.lxor_0_r.
  - now rewrite Z.lxor_assoc, Z.lxor_nilpotent, Z.lxor_0_r.
  - now rewrite Z.lxor_assoc, Z.lxor_nilpotent, Z.lxor_0_r.
Qed.

Lemma mapM_involutive {A : Type} (f : A -> outcome A) (l : list A) :
  (forall a, exists b, f a = Ok b /\ f b = Ok a) ->
  exists l', mapM f l = Ok l' /\ mapM f l' = Ok l.
Proof.
  intros H. induction l as [| a l (l' & H1 & H2)]; [now exists [] |].
  destruct (H a) as (b & Hab & Hba). exists (b :: l').
  cbn [mapM]. rewrite Hab, Hba, H1, H2. split; reflexivity.
Qed.

(** X14: applying BitwiseXorAS twice with the same scalar restores the
    tensor. *)
Theorem BitwiseXorAS_twice_restores
    (bool_is_integral : bool) (dev : Device) (T : Dtype)
    (xs os : list (val T)) (s : Scalar) (c : val T) :
  is_integral bool_is_integral T = true -> length xs = length os ->
  static_cast T s = Ok c ->
  exists ys,
    NativeBitwiseXorASKernel_Call bool_is_integral (mkArray dev T xs) s (mkArray dev T os)
    = Ok (mkArray dev T ys) /\
    NativeBitwiseXorASKernel_Call bool_is_integral (mkArray dev T ys) s (mkArray dev T os)
    = Ok (mkArray dev T xs).
Proof.
  intros HT Hl Hs. unfold NativeBitwiseXorASKernel_Call.
  assert (Hf : is_floating T = false) by (destruct T; easy).
  destruct (mapM_involutive (fun a => BitwiseXor T a c) xs) as (ys & H1 & H2).
  { intros a. now apply bitwise_xor_involutive. }
  exists ys. pose proof (mapM_length _ _ _ H1) as Hly.
  rewrite !(ASKernel_runs _ _ _ (VisitIntegralDtype_visits bool_is_integral) dev T)
    by (try assumption; congruence).
  rewrite Hs. cbn [bind]. rewrite H1, H2. split; reflexivity.
Qed.

Lemma BitwiseXorAS_twice_restores_witness :
  exists ys,
    NativeBitwiseXorASKernel_Call false
      (mkArray 0%nat kUInt8 [5; 255]) (VInt 170) (mkArray 0%nat kUInt8 [0; 0])
    = Ok (mkArray 0%nat kUInt8 ys) /\
    NativeBitwiseXorASKernel_Call false
      (mkArray 0%nat kUInt8 ys) (VInt 170) (mkArray 0%nat kUInt8 [0; 0])
    = Ok (mkArray 0%nat kUInt8 [5; 255]).
Proof.
  apply (BitwiseXorAS_twice_restores false 0%nat kUInt8 [5; 255] [0; 0] (VInt 170) 170);
    reflexivity.
Defined.

Lemma FloorDivide_uint8_rule (a b : Z) :
  Int.in_urange 8 a -> Int.in_urange 8 b ->
  FloorDivide_uint8 a b = Ok (floor_divide_rule a b).
Proof.
  unfold Int.in_urange. intros Ha Hb. destruct (Z.eq_dec b 0) as [-> | Hb0].
  - reflexivity.
  - rewrite floor_divide_rule_div by exact Hb0. unfold FloorDivide_uint8.
    destruct (b =? 0) eqn:E; [lia |]. rewrite Z.quot_div_nonneg by lia.
    f_equal. apply uwrap_in_range. unfold Int.in_urange.
    split; [apply Z.div_pos; lia |].
    apply Z.le_lt_trans with a; [apply Z.div_le_upper_bound; nia | lia].
Qed.

Lemma FloorDivide_narrow_rule (a b : Z) :
  (Int.in_range 8 a -> Int.in_range 8 b ->
   FloorDivide_int8 a b = Ok (Int.wrap 8 (floor_divide_rule a b))) /\
  (Int.in_range 16 a -> Int.in_range 16 b ->
   FloorDivide_int16 a b = Ok (Int.wrap 16 (floor_divide_rule a b))).
Proof.
  assert (H : Int.in_range 16 a -> Int.in_range 16 b ->
              FloorDivide_int32 (Int.wrap 32 a) (Int.wrap 32 b) = Ok (floor_divide_rule a b)).
  { intros Ha Hb. destruct (Z.eq_dec b 0) as [-> | Hb0]; [reflexivity |].
    rewrite floor_divide_rule_div by exact Hb0.
    now apply FloorDivide_int32_narrow_operands. }
  split; intros Ha Hb.
  - unfold FloorDivide_int8. rewrite H by (now apply in_range_8_16). reflexivity.
  - unfold FloorDivide_int16. rewrite H by assumption. reflexivity.
Qed.

Lemma FloorDivideKernel_elementwise (dev : Device) (T : Dtype)
    (g : val T -> val T -> val T) (l1 l2 lo : list (val T)) (P : val T -> Prop) :
  is_numeric T = true ->
  length l1 = length lo -> length l2 = length lo ->
  Forall P l1 -> Forall P l2 ->
  (forall a b, P a -> P b -> FloorDivide T a b = Ok (g a b)) ->
  FloorDivideKernel_Call (mkArray dev T l1) (mkArray dev T l2) (mkArray dev T lo)
  = Ok (mkArray dev T (map (fun p => g (fst p) (snd p)) (combine l1 l2))).
Proof.
  intros HT H1 H2 Hx1 Hx2 Hg. unfold FloorDivideKernel_Call.
  rewrite (ELTWISE_runs _ _ _ VisitNumericDtype_visits dev T) by assumption.
  rewrite (mapM2_ok _ g); [reflexivity | congruence |].
  intros a b Hin. rewrite Forall_forall in Hx1, Hx2.
  apply Hg; [apply Hx1; eapply in_combine_l | apply Hx2; eapply in_combine_r]; exact Hin.
Qed.

(** X15: on [int8], [int16] and [uint8] tensors (one device, equal
    lengths) the FloorDivide array-array kernel always returns: it writes,
    per element, the 32-bit rule applied to the operands, narrowed for the
    signed types; no pair of elements is undefined. *)
Theorem FloorDivideKernel_narrow_total (dev : Device) (xs1 xs2 os : list Z) :
  length xs1 = length os -> length xs2 = length os ->
  (Forall (Int.in_range 8) xs1 -> Forall (Int.in_range 8) xs2 ->
   FloorDivideKernel_Call
     (mkArray dev kInt8 xs1) (mkArray dev kInt8 xs2) (mkArray dev kInt8 os)
   = Ok (mkArray dev kInt8
           (map (fun p => Int.wrap 8 (floor_divide_rule (fst p) (snd p)))
                (combine xs1 xs2)))) /\
  (Forall (Int.in_range 16) xs1 -> Forall (Int.in_range 16) xs2 ->
   FloorDivideKernel_Call
     (mkArray dev kInt16 xs1) (mkArray dev kInt16 xs2) (mkArray dev kInt16 os)
   = Ok (mkArray dev kInt16
           (map (fun p => Int.wrap 16 (floor_divide_rule (fst p) (snd p)))
                (combine xs1 xs2)))) /\
  (Forall (Int.in_urange 8) xs1 -> Forall (Int.in_urange 8) xs2 ->
   FloorDivideKernel_Call
     (mkArray dev kUInt8 xs1) (mkArray dev kUInt8 xs2) (mkArray dev kUInt8 os)
   = Ok (mkArray dev kUInt8
           (map (fun p => floor_divide_rule (fst p) (snd p)) (combine xs1 xs2)))).
Proof.
  intros H1 H2. split; [| split]; intros Hx1 Hx2.
  - apply (FloorDivideKernel_elementwise dev kInt8
             (fun a b => Int.wrap 8 (floor_divide_rule a b)) xs1 xs2 os (Int.in_range 8));
      try assumption; try reflexivity.
    intros a b Ha Hb. now apply (proj1 (FloorDivide_narrow_rule a b)).
  - apply (FloorDivideKernel_elementwise dev kInt16
             (fun a b => Int.wrap 16 (floor_divide_rule a b)) xs1 xs2 os (Int.in_range 16));
      try assumption; try reflexivity.
    intros a b Ha Hb. now apply (proj2 (FloorDivide_narrow_rule a b)).
  - apply (FloorDivideKernel_elementwise dev kUInt8
             floor_divide_rule xs1 xs2 os (Int.in_urange 8));
      try assumption; try reflexivity.
    intros a b Ha Hb. now apply FloorDivide_uint8_rule.
Qed.

Lemma FloorDivideKernel_narrow_total_witness :
  FloorDivideKernel_Call
    (mkArray 0%nat kInt8 [-128; 7; -7; 5]) (mkArray 0%nat kInt8 [-1; 2; 2; 0])
    (mkArray 0%nat kInt8 [0; 0; 0; 0])
  = Ok (mkArray 0%nat kInt8 [-128; 3; -4; 0]).
Proof.
  apply (proj1 (FloorDivideKernel_narrow_total 0%nat [-128; 7; -7; 5] [-1; 2; 2; 0]
                  [0; 0; 0; 0] eq_refl eq_refl));
    repeat constructor; int_range.
Defined.

Lemma mapM2_repeat_r {A B C : Type} (f : A -> B -> outcome C) (l : list A) (c : B) :
  mapM2 f l (repeat c (length l)) = mapM (fun a => f a c) l.
Proof. induction l as [| a l IH]; [reflexivity |]. cbn. now rewrite IH. Qed.

Lemma mapM2_repeat_l {A B C : Type} (f : A -> B -> outcome C) (l : list B) (c : A) :
  mapM2 f (repeat c (length l)) l = mapM (fun b => f c b) l.
Proof. induction l as [| b l IH]; [reflexivity |]. cbn. now rewrite IH. Qed.

(** X16: on tensors of any length, an array-scalar (scalar-array) kernel
    with the scalar [c] ends as the array-array kernel does with [c]
    broadcast to the length of the tensor. *)
Theorem scalar_kernel_matches_broadcast
    (v : visitor) (subset : Dtype -> bool) (op : binop)
    (dev : Device) (T : Dtype) (xs os : list (val T)) (c : val T) :
  visits v subset -> subset T = true ->
  representable T c -> length xs = length os ->
  let X := mkArray dev T xs in
  let C := mkArray dev T (repeat c (length xs)) in
  let OUT := mkArray dev T os in
  ASKernel_Call v op X (Scalar_of T c) OUT = ELTWISE_DTYPE_BINARY_KERNEL op v X C OUT /\
  SAKernel_Call v op (Scalar_of T c) X OUT = ELTWISE_DTYPE_BINARY_KERNEL op v C X OUT.
Proof.
  intros Hv HT Hc Hl. cbv zeta.
  rewrite (ASKernel_runs v subset op Hv dev T HT xs os Hl).
  rewrite (SAKernel_runs v subset op Hv dev T HT xs os Hl).
  rewrite !(ELTWISE_runs v subset op Hv dev T HT) by (rewrite ?repeat_length; assumption).
  rewrite static_cast_Scalar_of by exact Hc. cbn [bind].
  now rewrite mapM2_repeat_r, mapM2_repeat_l.
Qed.

Lemma scalar_kernel_matches_broadcast_witness :
  NativeFloorDivideASKernel_Call
    (mkArray 0%nat kInt32 [7; -7; 9]) (Scalar_of kInt32 2) (mkArray 0%nat kInt32 [0; 0; 0])
  = FloorDivideKernel_Call
      (mkArray 0%nat kInt32 [7; -7; 9]) (mkArray 0%nat kInt32 [2; 2; 2])
      (mkArray 0%nat kInt32 [0; 0; 0]).
Proof.
  apply (proj1 (scalar_kernel_matches_broadcast VisitNumericDtype is_numeric FloorDivide
                  0%nat kInt32 [7; -7; 9] [0; 0; 0] 2
                  VisitNumericDtype_visits eq_refl ltac:(cbn; int_range) eq_refl)).
Defined.
